(** * adhanctl: the prayer-time pipeline, embedded and verified

    A shallow embedding of [internal/prayer/times.go], the status-line
    builder of package [waybar] and the [serve] loop of [cmd/adhanctl],
    together with the parts of Go's [strings], [strconv], [fmt] and [time]
    packages these functions call.

    Conventions.
    - A Go [string] is a byte sequence: Rocq's [string] (a list of 8-bit
      [ascii]).  Literals that hold non-ASCII text are their UTF-8 bytes.
    - Go's [int], [int64] and [time.Duration] are [Z]; where the code can
      reach the 64-bit bounds ([strconv.Atoi], [Time.Sub]) the clamping is
      written out.
    - An instant is a number of nanoseconds since the Unix epoch, paired
      with the [Location] the Go value carries for formatting.
    - Reads of the wall clock ([time.Now]) are an explicit argument
      [clock]; the environment of the [time] package ([time.Local],
      [time.LoadLocation]) is a record [TZEnv]. *)

From Stdlib Require Import ZArith List String Ascii Lia.
From stdpp Require Import base list sorting gmap strings.

Local Open Scope Z_scope.

(** ** Package [strings] *)

Module Strings.

Definition byte (c : ascii) : Z := Z.of_N (N_of_ascii c).

(** Width in bytes of the white-space rune that starts [s], or [0] when [s]
    does not start with one.  The runes are those of [unicode.IsSpace]:
    U+0009..U+000D, U+0020, U+0085, U+00A0, U+1680, U+2000..U+200A, U+2028,
    U+2029, U+202F, U+205F and U+3000, in their UTF-8 encoding.  Every such
    encoding starts with a byte that is never a continuation byte, so the
    match on bytes agrees with Go's rune decoding on any input. *)
Definition spaceWidth (s : string) : nat :=
  match s with
  | String c0 r0 =>
    let b0 := byte c0 in
    if (b0 =? 32) || ((9 <=? b0) && (b0 <=? 13)) then 1%nat
    else match r0 with
    | String c1 r1 =>
      let b1 := byte c1 in
      if (b0 =? 194) && ((b1 =? 133) || (b1 =? 160)) then 2%nat
      else match r1 with
      | String c2 _ =>
        let b2 := byte c2 in
        if (b0 =? 225) && (b1 =? 154) && (b2 =? 128) then 3%nat
        else if (b0 =? 226) && (b1 =? 128)
                && (((128 <=? b2) && (b2 <=? 138))
                    || (b2 =? 168) || (b2 =? 169) || (b2 =? 175)) then 3%nat
        else if (b0 =? 226) && (b1 =? 129) && (b2 =? 159) then 3%nat
        else if (b0 =? 227) && (b1 =? 128) && (b2 =? 128) then 3%nat
        else 0%nat
      | EmptyString => 0%nat
      end
    | EmptyString => 0%nat
    end
  | EmptyString => 0%nat
  end.

(** [strings.Fields]: the maximal runs of bytes that belong to no
    white-space rune.  [skip] counts the bytes still to drop of a
    multi-byte space; [cur] is the field being collected. *)
Fixpoint fieldsFrom (s : string) (skip : nat) (cur : option string) : list string :=
  match s with
  | EmptyString => match cur with Some f => [f] | None => [] end
  | String c r =>
    match skip with
    | S k => fieldsFrom r k cur
    | O =>
      match spaceWidth s with
      | O => fieldsFrom r 0
               (Some (match cur with Some f => f +:+ String c "" | None => String c "" end))
      | S k =>
        match cur with
        | Some f => f :: fieldsFrom r k None
        | None => fieldsFrom r k None
        end
      end
    end
  end.

Definition Fields (s : string) : list string := fieldsFrom s 0 None.

(** For each byte of [s], whether it belongs to a white-space rune. *)
Fixpoint spaceMask (s : string) (skip : nat) : list bool :=
  match s with
  | EmptyString => []
  | String _ r =>
    match skip with
    | S k => true :: spaceMask r k
    | O =>
      match spaceWidth s with
      | O => false :: spaceMask r 0
      | S k => true :: spaceMask r k
      end
    end
  end.

Fixpoint dropMasked (cs : list ascii) (m : list bool) : list ascii * list bool :=
  match cs, m with
  | c :: cs', true :: m' => dropMasked cs' m'
  | _, _ => (cs, m)
  end.

(** [strings.TrimSpace]: leading and trailing white-space runes removed. *)
Definition TrimSpace (s : string) : string :=
  let '(cs, m) := dropMasked (list_ascii_of_string s) (spaceMask s 0) in
  let '(rcs, _) := dropMasked (rev cs) (rev m) in
  string_of_list_ascii (rev rcs).

(** [strings.Index(s, sep)] for a one-byte [sep]: the index of its first
    occurrence, or [-1]. *)
Fixpoint Index (s : string) (sep : ascii) : Z :=
  match s with
  | EmptyString => -1
  | String c r =>
    if Ascii.eqb c sep then 0
    else let i := Index r sep in if i <? 0 then -1 else i + 1
  end.

(** [strings.Split(s, sep)] for a one-byte [sep]: one more part than there
    are separators; [Split "" sep] is the one-element list of [""]. *)
Fixpoint Split (s : string) (sep : ascii) : list string :=
  match s with
  | EmptyString => [""%string]
  | String c r =>
    if Ascii.eqb c sep then ""%string :: Split r sep
    else match Split r sep with
         | p :: ps => String c p :: ps
         | [] => [String c ""]
         end
  end.

(** [strings.Join]. *)
Definition Join (parts : list string) (sep : string) : string :=
  String.concat sep parts.

(** The slice expression [s[:i]]. *)
Definition prefix (s : string) (i : Z) : string := substring 0 (Z.to_nat i) s.

End Strings.

(** ** Package [strconv] *)

Module Strconv.

Inductive NumError := ErrSyntax | ErrRange.

Definition maxUint64 : Z := 2 ^ 64 - 1.

Definition digitVal (c : ascii) : option Z :=
  let b := Strings.byte c in
  if (48 <=? b) && (b <=? 57) then Some (b - 48) else None.

(** The loop of [strconv.ParseUint] in base 10 on 64 bits, from the value
    [n] read so far.  A byte that is no digit is a syntax error; the loop
    stops with a range error at the first digit that does not fit, before
    it looks at the bytes after it. *)
Fixpoint parseUint (n : Z) (s : string) : Z * option NumError :=
  match s with
  | EmptyString => (n, None)
  | String c r =>
    match digitVal c with
    | None => (0, Some ErrSyntax)
    | Some d =>
      if maxUint64 / 10 + 1 <=? n then (maxUint64, Some ErrRange)
      else
        let n1 := n * 10 + d in
        if maxUint64 <? n1 then (maxUint64, Some ErrRange) else parseUint n1 r
    end
  end.

(** [strconv.Atoi] on a 64-bit platform: the [int] and the error.  An
    optional sign and at least one decimal digit; a syntax error yields
    [0]; a value outside [int64] yields the nearest bound and a range
    error.  (Go's fast path for short strings computes the same.) *)
Definition Atoi (s : string) : Z * option NumError :=
  let '(neg, body) :=
    match s with
    | String c r =>
      if Ascii.eqb c "-" then (true, r)
      else if Ascii.eqb c "+" then (false, r)
      else (false, s)
    | EmptyString => (false, s)
    end in
  match body with
  | EmptyString => (0, Some ErrSyntax)
  | _ =>
    match parseUint 0 body with
    | (_, Some ErrSyntax) => (0, Some ErrSyntax)
    | (un, err) =>
      if negb neg && (2 ^ 63 <=? un) then (2 ^ 63 - 1, Some ErrRange)
      else if neg && (2 ^ 63 <? un) then (- 2 ^ 63, Some ErrRange)
      else (if neg then - un else un, err)
    end
  end.

End Strconv.

(** ** Package [fmt]: the verbs the program uses *)

Module Fmt.

Definition digitChar (d : Z) : ascii := ascii_of_N (Z.to_N (48 + d)).

(** Decimal digits of [u >= 0], most significant first, prepended to
    [acc]; one digit per unit of [fuel]. *)
Fixpoint utoa (fuel : nat) (u : Z) (acc : string) : string :=
  match fuel with
  | O => acc
  | S f =>
    let acc' := String (digitChar (u mod 10)) acc in
    if u / 10 =? 0 then acc' else utoa f (u / 10) acc'
  end.

(** A number has no more decimal digits than binary ones. *)
Definition digitsFuel (u : Z) : nat := S (Z.to_nat (Z.log2 u)).

(** The verb [%d]. *)
Definition d (x : Z) : string :=
  if x <? 0 then String "-" (utoa (digitsFuel (- x)) (- x) "")
  else utoa (digitsFuel x) x "".

Fixpoint zeros (n : nat) : string :=
  match n with O => ""%string | S k => String "0" (zeros k) end.

(** The verb [%02d]: zero padding up to a total width of two, the sign
    included. *)
Definition d02 (x : Z) : string :=
  let s := d x in
  if x <? 0 then String "-" (zeros (2 - String.length s) +:+ d (- x))
  else zeros (2 - String.length s) +:+ s.

Fixpoint spaces (n : nat) : string :=
  match n with O => ""%string | S k => String " " (spaces k) end.

(** The verb [%-8s] on text without multi-byte runes: left-justified in a
    field of eight. *)
Definition s8 (s : string) : string := s +:+ spaces (8 - String.length s).

End Fmt.

(** ** Package [time] *)

Module Time.

Definition Nanosecond : Z := 1.
Definition Second : Z := 1000000000.
Definition Minute : Z := 60 * Second.
Definition Hour : Z := 60 * Minute.

Definition minDuration : Z := - 2 ^ 63.
Definition maxDuration : Z := 2 ^ 63 - 1.

(** The bounds Go gives to the first and last period of a zone table. *)
Definition alpha : Z := - 2 ^ 63.
Definition omega : Z := 2 ^ 63 - 1.

(** A [*time.Location] is what [Location.lookup] computes from it: for a
    Unix time in seconds, the offset in seconds east of UTC in force then,
    and the bounds [start <= sec < end] of the period with that offset. *)
Record Location := { lookup : Z -> Z * Z * Z }.

Definition UTC : Location := {| lookup := fun _ => (0, alpha, omega) |}.

(** [time.FixedZone]. *)
Definition FixedZone (offset : Z) : Location :=
  {| lookup := fun _ => (offset, alpha, omega) |}.

Definition zoneOffset (l : Location) (sec : Z) : Z := fst (fst (lookup l sec)).

(** What the program reads from the [time] package's environment. *)
Record TZEnv := {
  Local : Location;
  LoadLocation : string -> option Location
}.

(** A [time.Time] without monotonic reading (every one the program
    compares went through [In] or [Date], which strip it): nanoseconds
    since the Unix epoch and the location used for presentation. *)
Record Time := { unixNano : Z; loc : Location }.

(** [time.Now().In(l)] when the wall clock reads [clock]. *)
Definition NowIn (clock : Z) (l : Location) : Time :=
  {| unixNano := clock; loc := l |}.

Definition Before (t u : Time) : bool := unixNano t <? unixNano u.
Definition After (t u : Time) : bool := unixNano u <? unixNano t.

Definition Add (t : Time) (d : Z) : Time :=
  {| unixNano := unixNano t + d; loc := loc t |}.

(** [t.Sub(u)] saturates at the bounds of [Duration]. *)
Definition Sub (t u : Time) : Z :=
  let d := unixNano t - unixNano u in
  if d <? minDuration then minDuration
  else if maxDuration <? d then maxDuration
  else d.

(** [norm] of package [time]: [lo] brought into [0, base), the carry moved
    into [hi].  Go's [/] truncates: [Z.quot]. *)
Definition norm (hi lo base : Z) : Z * Z :=
  let '(hi, lo) :=
    if lo <? 0 then
      let n := Z.quot (- lo - 1) base + 1 in (hi - n, lo + n * base)
    else (hi, lo) in
  let '(hi, lo) :=
    if base <=? lo then
      let n := Z.quot lo base in (hi + n, lo - n * base)
    else (hi, lo) in
  (hi, lo).

Definition isLeap (year : Z) : bool :=
  (year mod 4 =? 0) && (negb (year mod 100 =? 0) || (year mod 400 =? 0)).

(** Days before each month of a non-leap year. *)
Definition daysBefore : list Z :=
  [0; 31; 59; 90; 120; 151; 181; 212; 243; 273; 304; 334; 365].

(** Days from 1 January 1970 to 1 January of [year] in the proleptic
    Gregorian calendar.  (Go counts from an earlier epoch and subtracts
    the difference afterwards; the two constants are folded here.) *)
Definition daysSinceEpoch (year : Z) : Z :=
  let y := year - 1 in
  365 * y + y / 4 - y / 100 + y / 400 - 719162.

Definition secondsPerDay : Z := 86400.

(** [time.Date]: the fields are normalised, counted as seconds as if in
    UTC, then moved by the zone offset found for that reading; when the
    reading falls outside the period the offset belongs to, the offset in
    force at the corrected instant is used.  Arithmetic is over [Z]: this
    is Go's result whenever Go's own 64-bit arithmetic does not overflow. *)
Definition Date (year month day hour min sec nsec : Z) (l : Location) : Time :=
  let m := month - 1 in
  let '(year, m) := norm year m 12 in
  let month := m + 1 in
  let '(sec, nsec) := norm sec nsec 1000000000 in
  let '(min, sec) := norm min sec 60 in
  let '(hour, min) := norm hour min 60 in
  let '(day, hour) := norm day hour 24 in
  let d := daysSinceEpoch year in
  let d := d + nth (Z.to_nat (month - 1)) daysBefore 0 in
  let d := if isLeap year && (3 <=? month) then d + 1 else d in
  let d := d + (day - 1) in
  let abs := d * secondsPerDay in
  let abs := abs + (hour * 3600 + min * 60 + sec) in
  let unix := abs in
  let '(offset, start, end_) := lookup l unix in
  let unix :=
    if offset =? 0 then unix
    else
      let utc := unix - offset in
      let offset :=
        if (utc <? start) || (end_ <=? utc) then zoneOffset l utc else offset in
      unix - offset in
  {| unixNano := unix * 1000000000 + nsec; loc := l |}.

(** Seconds since the epoch of the wall clock shown by [t] in its own
    location. *)
Definition localSeconds (t : Time) : Z :=
  let sec := unixNano t / 1000000000 in
  sec + zoneOffset (loc t) sec.

(** Year, month and day of a count of days since 1 January 1970. *)
Definition civil (days : Z) : Z * Z * Z :=
  let z := days + 719468 in
  let era := z / 146097 in
  let doe := z - era * 146097 in
  let yoe := (doe - doe / 1460 + doe / 36524 - doe / 146096) / 365 in
  let doy := doe - (365 * yoe + yoe / 4 - yoe / 100) in
  let mp := (5 * doy + 2) / 153 in
  let day := doy - (153 * mp + 2) / 5 + 1 in
  let month := if mp <? 10 then mp + 3 else mp - 9 in
  let year := yoe + era * 400 + (if month <=? 2 then 1 else 0) in
  (year, month, day).

Definition Year (t : Time) : Z := fst (fst (civil (localSeconds t / secondsPerDay))).
Definition Month (t : Time) : Z := snd (fst (civil (localSeconds t / secondsPerDay))).
Definition Day (t : Time) : Z := snd (civil (localSeconds t / secondsPerDay)).
Definition HourOf (t : Time) : Z := (localSeconds t mod secondsPerDay) / 3600.
Definition MinuteOf (t : Time) : Z := (localSeconds t mod 3600) / 60.

(** [appendInt] of package [time]: sign, then the digits zero-padded to
    [width]. *)
Definition appendInt (x : Z) (width : nat) : string :=
  let u := Z.abs x in
  let s := Fmt.d u in
  (if x <? 0 then "-" else "")
    +:+ Fmt.zeros (width - String.length s) +:+ s.

(** [t.Format] for the three layouts of the program. *)
Definition Format_02_01_2006 (t : Time) : string :=
  appendInt (Day t) 2 +:+ "-" +:+ appendInt (Month t) 2 +:+ "-" +:+ appendInt (Year t) 4.

Definition Format_15_04 (t : Time) : string :=
  appendInt (HourOf t) 2 +:+ ":" +:+ appendInt (MinuteOf t) 2.

Definition Format_03_04_PM (t : Time) : string :=
  let h := HourOf t in
  let hr := h mod 12 in
  let hr := if hr =? 0 then 12 else hr in
  appendInt hr 2 +:+ ":" +:+ appendInt (MinuteOf t) 2 +:+ " "
    +:+ (if 12 <=? h then "PM" else "AM").

End Time.

(** ** Package [sort] *)

Module Sort.

Section Slice.
Context {A : Type} (less : A -> A -> bool).

(** The inner loop of Go's [insertionSortLessFunc]: the element [x] at
    index [j] is swapped with its left neighbour as long as it is less
    than it.  [left] is the part of the slice left of [x], nearest
    element first. *)
Fixpoint sink (x : A) (left : list A) : list A :=
  match left with
  | [] => [x]
  | y :: l => if less x y then y :: sink x l else x :: left
  end.

(** [sort.Slice].  Go sorts a slice of at most twelve elements by
    insertion sort, which is what is modelled; the program only sorts
    events of the six-name table.  (On longer slices Go's pattern-defeating
    quicksort also returns a sorted permutation, but may order elements
    that compare equal differently.) *)
Definition Slice (data : list A) : list A :=
  rev (fold_left (fun left x => sink x left) data []).
End Slice.

End Sort.

(** ** Package [api]: the decoded response *)

Module Api.

(** The fields of [api.Response] the pipeline reads: [Data.Timings],
    [Data.Date.Gregorian.Date], [Data.Date.Hijri] and
    [Data.Meta.Timezone]. *)
Record Response := {
  Timings : gmap string string;
  Gregorian_Date : string;
  Hijri_Date : string;
  Hijri_Month_En : string;
  Hijri_Month_Ar : string;
  Hijri_Weekday_En : string;
  Hijri_Weekday_Ar : string;
  Meta_Timezone : string
}.

End Api.

(** ** Package [prayer] *)

Module Prayer.

Record Event := { Name : string; When : Time.Time }.

Definition StandardOrder : list string :=
  ["Fajr"; "Sunrise"; "Dhuhr"; "Asr"; "Maghrib"; "Isha"]%string.

(** [parseDateTime]; [inr] carries the error.  [clock] is the reading of
    [time.Now()]. *)
Definition parseDateTime (gregDate timeStr : string) (loc : Time.Location) (clock : Z)
  : Time.Time + string :=
  let parts := Strings.Split timeStr ":" in
  if (length parts <? 2)%nat then inr ("invalid time format: " +:+ timeStr)
  else
    let h := fst (Strconv.Atoi (nth 0 parts "")) in
    let m := fst (Strconv.Atoi (nth 1 parts "")) in
    let dateParts := Strings.Split gregDate "-" in
    let '(day, month, year) :=
      if (3 <=? length dateParts)%nat then
        (fst (Strconv.Atoi (nth 0 dateParts "")),
         fst (Strconv.Atoi (nth 1 dateParts "")),
         fst (Strconv.Atoi (nth 2 dateParts "")))
      else (0, 0, 0) in
    let '(day, month, year) :=
      if (day =? 0) || (month =? 0) || (year =? 0) then
        let now := Time.NowIn clock loc in
        (Time.Day now, Time.Month now, Time.Year now)
      else (day, month, year) in
    inl (Time.Date year month day h m 0 0 loc).

(** Lines 38-46 of [ParseTimes]: the first white-space separated field of
    the raw string, cut before a parenthesis; [None] when there is no
    field. *)
Definition timeToken (tstr : string) : option string :=
  match Strings.Fields tstr with
  | [] => None
  | ts :: _ =>
    let i := Strings.Index ts "(" in
    Some (if 0 <=? i then Strings.TrimSpace (Strings.prefix ts i) else ts)
  end.

(** The body of the loop of [ParseTimes] for one name: the event it
    appends, or [None] where the code says [continue]. *)
Definition rowEvent (timings : gmap string string) (gregDate : string)
    (loc : Time.Location) (clock : Z) (name : string) : option Event :=
  match timings !! name with
  | None => None
  | Some tstr =>
    match timeToken tstr with
    | None => None
    | Some ts =>
      match parseDateTime gregDate ts loc clock with
      | inr _ => None
      | inl dt => Some {| Name := name; When := dt |}
      end
    end
  end.

Definition lessWhen (a b : Event) : bool := Time.Before (When a) (When b).

Definition ParseTimes (resp : Api.Response) (loc : Time.Location) (clock : Z)
  : list Event :=
  let gregDate := Api.Gregorian_Date resp in
  let gregDate :=
    if String.eqb gregDate "" then Time.Format_02_01_2006 (Time.NowIn clock loc)
    else gregDate in
  let events :=
    fold_left
      (fun events name =>
         match rowEvent (Api.Timings resp) gregDate loc clock name with
         | None => events
         | Some e => events ++ [e]
         end)
      StandardOrder [] in
  Sort.Slice lessWhen events.

Definition TimezoneFromResp (env : Time.TZEnv) (resp : Api.Response) : Time.Location :=
  let tz := Api.Meta_Timezone resp in
  if String.eqb tz "" then Time.Local env
  else
    match Time.LoadLocation env tz with
    | None => Time.Local env
    | Some loc => loc
    end.

Definition NextEventAfter (events : list Event) (after : Time.Time) : option Event :=
  fold_left
    (fun best e =>
       if Time.After (When e) after then
         match best with
         | None => Some e
         | Some b => if Time.Before (When e) (When b) then Some e else best
         end
       else best)
    events None.

Definition UpcomingEvents (events : list Event) (from : Time.Time) (within : Z)
  : list Event :=
  let limit := Time.Add from within in
  let result :=
    fold_left
      (fun result e =>
         if Time.After (When e) from && Time.Before (When e) limit
         then result ++ [e] else result)
      events [] in
  Sort.Slice lessWhen result.

(** [int(d.Minutes())] for [d >= 0].  Go computes
    [float64(d / Minute) + float64(d % Minute) / 6e10] and truncates; the
    result is the integer quotient for every [d] below [2^18] minutes (half
    a year), beyond which the sum can round up to the next minute when [d]
    is within nanoseconds of it. *)
Definition wholeMinutes (d : Z) : Z := Z.quot d Time.Minute.

Definition HumanDuration (d : Z) : string :=
  if d <? 0 then "passed"%string
  else
    let totalMins := wholeMinutes d in
    if totalMins <? 60 then Fmt.d totalMins +:+ "m"
    else
      let h := Z.quot totalMins 60 in
      let m := Z.rem totalMins 60 in
      if m =? 0 then Fmt.d h +:+ "h"
      else Fmt.d h +:+ "h" +:+ Fmt.d02 m +:+ "m".

Definition HijriString (resp : Api.Response) (arabic : bool) : string :=
  let parts := [] in
  let parts :=
    if negb (String.eqb (Api.Hijri_Date resp) "") then parts ++ [Api.Hijri_Date resp]
    else parts in
  let month := if arabic then Api.Hijri_Month_Ar resp else Api.Hijri_Month_En resp in
  let parts := if negb (String.eqb month "") then parts ++ [month] else parts in
  let weekday := if arabic then Api.Hijri_Weekday_Ar resp else Api.Hijri_Weekday_En resp in
  let parts := if negb (String.eqb weekday "") then parts ++ [weekday] else parts in
  Strings.Join parts " ".

Definition FormatTime (t : Time.Time) (ampm : bool) : string :=
  if ampm then Time.Format_03_04_PM t else Time.Format_15_04 t.

End Prayer.

(** ** Package [waybar] *)

Module Waybar.

Record Output := { Text : string; Tooltip : string; Class : string }.

(** [Build] as [runWaybar] calls it: it resolves the zone, parses the
    payload and looks the next event up itself.  The inner loop over
    [events] stops at the first event of the name: [find].  The text
    literals are the bytes of the source file. *)
Definition Build (env : Time.TZEnv) (resp : Api.Response)
    (ampm arabic short : bool) (clock : Z) : Output :=
  let loc := Prayer.TimezoneFromResp env resp in
  let events := Prayer.ParseTimes resp loc clock in
  let now := Time.NowIn clock loc in
  let next := Prayer.NextEventAfter events now in
  let tooltipLines := [] in
  let hijri := Prayer.HijriString resp arabic in
  let tooltipLines :=
    if negb (String.eqb hijri "") then tooltipLines ++ ["üìÖ " +:+ hijri]
    else tooltipLines in
  let '(text, tooltipLines) :=
    match next with
    | Some nx =>
      let rem := Prayer.HumanDuration (Time.Sub (Prayer.When nx) now) in
      let timeStr := Prayer.FormatTime (Prayer.When nx) ampm in
      let text :=
        if short then Prayer.Name nx +:+ " " +:+ timeStr
        else Prayer.Name nx +:+ " " +:+ timeStr +:+ " (" +:+ rem +:+ ")" in
      (text, tooltipLines ++ ["Next: " +:+ Prayer.Name nx +:+ " ‚Äî " +:+ rem])
    | None => ("Internal Error"%string, tooltipLines ++ ["Internal Error"%string])
    end in
  let tooltipLines := tooltipLines ++ [""%string; "Today's Schedule:"%string] in
  let tooltipLines :=
    fold_left
      (fun tooltipLines name =>
         match find (fun e => String.eqb (Prayer.Name e) name) events with
         | Some e =>
           let marker :=
             if Time.After now (Prayer.When e) then " ‚úì"%string
             else
               match next with
               | Some nx =>
                 if String.eqb (Prayer.Name e) (Prayer.Name nx) then " ‚Üê"%string
                 else ""%string
               | None => ""%string
               end in
           tooltipLines
             ++ ["  " +:+ Fmt.s8 name +:+ " " +:+ Prayer.FormatTime (Prayer.When e) ampm
                 +:+ marker]
         | None => tooltipLines
         end)
      Prayer.StandardOrder tooltipLines in
  {| Text := text;
     Tooltip := Strings.Join tooltipLines (String (ascii_of_N 10) "");
     Class := "adhan" |}.

End Waybar.

(** The other revision of the same file, in which the caller passes the
    next event and the event list. *)

Module WaybarArgs.

Record Output := { Text : string; Tooltip : string; Class : string }.

(** [Build] with [nextEvent] and [events] as arguments. *)
Definition Build (env : Time.TZEnv) (resp : Api.Response)
    (next : option Prayer.Event) (events : list Prayer.Event)
    (ampm arabic short : bool) (clock : Z) : Output :=
  let loc := Prayer.TimezoneFromResp env resp in
  let now := Time.NowIn clock loc in
  let tooltipLines := [] in
  let hijri := Prayer.HijriString resp arabic in
  let tooltipLines :=
    if negb (String.eqb hijri "") then tooltipLines ++ ["📅 " +:+ hijri]
    else tooltipLines in
  let '(text, tooltipLines) :=
    match next with
    | Some nx =>
      let rem := Prayer.HumanDuration (Time.Sub (Prayer.When nx) now) in
      let timeStr := Prayer.FormatTime (Prayer.When nx) ampm in
      let text :=
        if short then Prayer.Name nx +:+ " " +:+ timeStr
        else Prayer.Name nx +:+ " " +:+ timeStr +:+ " (" +:+ rem +:+ ")" in
      (text, tooltipLines ++ ["Next: " +:+ Prayer.Name nx +:+ " — " +:+ rem])
    | None => ("No upcoming prayer"%string, tooltipLines ++ ["No upcoming prayer"%string])
    end in
  let tooltipLines := tooltipLines ++ [""%string; "Today's Schedule:"%string] in
  let tooltipLines :=
    fold_left
      (fun tooltipLines name =>
         match find (fun e => String.eqb (Prayer.Name e) name) events with
         | Some e =>
           let marker :=
             if Time.After now (Prayer.When e) then " ✓"%string
             else
               match next with
               | Some nx =>
                 if String.eqb (Prayer.Name e) (Prayer.Name nx) then " ←"%string
                 else ""%string
               | None => ""%string
               end in
           tooltipLines
             ++ ["  " +:+ Fmt.s8 name +:+ " " +:+ Prayer.FormatTime (Prayer.When e) ampm
                 +:+ marker]
         | None => tooltipLines
         end)
      Prayer.StandardOrder tooltipLines in
  {| Text := text;
     Tooltip := Strings.Join tooltipLines (String (ascii_of_N 10) "");
     Class := "adhan" |}.

End WaybarArgs.

(** ** Package [main]: the [serve] daemon *)

Module Serve.

(** A goroutine started by [go scheduleNotification(ev, hijri)]: it sleeps
    on a timer of its own until [ev.When], then calls
    [notify.Prayer(ev, hijri)] and ends. *)
Record Timer := { ev : Prayer.Event; hijri : string }.

(** The daemon as the scheduler sees it: the goroutines waiting on their
    timers, and the calls of [notify.Prayer] made so far, oldest first. *)
Record Daemon := { armed : list Timer; notified : list Timer }.

Definition start : Daemon := {| armed := []; notified := [] |}.

(** The statement [go scheduleNotification(ev, hijri)]. *)
Definition scheduleNotification (e : Prayer.Event) (h : string) (st : Daemon) : Daemon :=
  {| armed := armed st ++ [{| ev := e; hijri := h |}]; notified := notified st |}.

(** The closure [scheduleEvents] of [runServe].  [fetched] is what the
    cache or the client returned, [None] on a fetch error; [clock] is the
    reading of [time.Now()]. *)
Definition scheduleEvents (env : Time.TZEnv) (arabic : bool)
    (fetched : option Api.Response) (clock : Z) (st : Daemon) : Daemon :=
  match fetched with
  | None => st
  | Some resp =>
    let loc := Prayer.TimezoneFromResp env resp in
    let events := Prayer.ParseTimes resp loc clock in
    if (length events =? 0)%nat then st
    else
      let now := Time.NowIn clock loc in
      let upcoming := Prayer.UpcomingEvents events now (24 * Time.Hour) in
      let hijri := Prayer.HijriString resp arabic in
      fold_left
        (fun st e =>
           if Time.Before (Prayer.When e) now then st
           else scheduleNotification e hijri st)
        upcoming st
  end.

(** The wall clock reaches [clock]: every waiting goroutine whose instant
    has come makes its call and ends. *)
Definition elapse (clock : Z) (st : Daemon) : Daemon :=
  let due t := Time.unixNano (Prayer.When (ev t)) <=? clock in
  {| armed := filter (fun t => due t = false) (armed st);
     notified := notified st ++ filter (fun t => due t = true) (armed st) |}.

(** What the loop of [runServe] reacts to: a tick of the ticker (the first
    call of [scheduleEvents] counts as one), or time passing. *)
Inductive Trigger :=
| Tick (fetched : option Api.Response) (clock : Z)
| Elapse (clock : Z).

Definition step (env : Time.TZEnv) (arabic : bool) (st : Daemon) (tr : Trigger) : Daemon :=
  match tr with
  | Tick fetched clock => scheduleEvents env arabic fetched clock (elapse clock st)
  | Elapse clock => elapse clock st
  end.

Definition run (env : Time.TZEnv) (arabic : bool) (trs : list Trigger) : Daemon :=
  fold_left (step env arabic) trs start.

(** Number of calls of [notify.Prayer] made for the event of name [name]
    at the instant [when]. *)
Definition timesNotified (name : string) (when : Z) (st : Daemon) : nat :=
  length (filter (fun t => String.eqb (Prayer.Name (ev t)) name = true
                           ∧ Time.unixNano (Prayer.When (ev t)) = when)
                 (notified st)).

End Serve.

(** ** Package [cache]: the file-name sanitiser *)

Module Cache.

(** The runes [sanitize] keeps as they are: ASCII letters, digits, [-]
    and [_]. *)
Definition kept (b : Z) : bool :=
  ((97 <=? b) && (b <=? 122)) || ((65 <=? b) && (b <=? 90))
  || ((48 <=? b) && (b <=? 57)) || (b =? 45) || (b =? 95).

(** The loop of [sanitize] over the runes of [s].  Every rune the loop
    keeps or replaces is ASCII, and a byte below 128 is always a rune of
    its own; the bytes from 128 on belong to runes the loop drops (a
    non-ASCII rune, or U+FFFD for a byte that decodes to nothing).  So the
    loop over runes is this loop over bytes. *)
Fixpoint sanitizeLoop (s : string) : string :=
  match s with
  | EmptyString => EmptyString
  | String c r =>
    if kept (Strings.byte c) then String c (sanitizeLoop r)
    else if Strings.byte c =? 32 then String "_" (sanitizeLoop r)
    else sanitizeLoop r
  end.

Definition sanitize (s : string) : string :=
  let result := sanitizeLoop s in
  if (String.length result =? 0)%nat then "default" else result.

End Cache.

(** ** Package [api]: the retry loop of the client *)

Module Fetch.

Definition MaxRetries : nat := 6.
Definition Millisecond : Z := 1000000.

(** What the loop meets: the result of the [i]-th call of [fetchURL]
    ([inr] carries the error), and whether the context is done before the
    timer of the [i]-th wait fires. *)
Record World := {
  fetchURL : nat -> Api.Response + string;
  cancelled : nat -> bool
}.

(** The error [fetchWithRetries] returns: the context's, or the last
    attempt's wrapped with the number of retries. *)
Inductive Error :=
| ContextDone
| FetchFailed (retries : nat) (lastErr : string).

(** The run of the loop: the value returned, the number of calls of
    [fetchURL] and the waits slept through to their end, oldest first. *)
Record Run := {
  result : Api.Response + Error;
  attempts : nat;
  slept : list Z
}.

(** The [for i := range MaxRetries] of [fetchWithRetries], with [n]
    iterations left. *)
Fixpoint retryLoop (w : World) (n i : nat) (backoff : Z) (lastErr : string)
    (waits : list Z) : Run :=
  match n with
  | O => {| result := inr (FetchFailed MaxRetries lastErr); attempts := i; slept := waits |}
  | S n' =>
    match fetchURL w i with
    | inl resp => {| result := inl resp; attempts := S i; slept := waits |}
    | inr err =>
      if cancelled w i
      then {| result := inr ContextDone; attempts := S i; slept := waits |}
      else
        let waits := waits ++ [backoff] in
        let backoff := backoff * 2 in
        let backoff := if 8 * Time.Second <? backoff then 8 * Time.Second else backoff in
        retryLoop w n' (S i) backoff err waits
    end
  end.

Definition fetchWithRetries (w : World) : Run :=
  retryLoop w MaxRetries 0 (500 * Millisecond) "" [].

End Fetch.

(** * Vocabulary of the statements *)

(** The instant of an event, in nanoseconds since the Unix epoch. *)
Definition instant (e : Prayer.Event) : Z := Time.unixNano (Prayer.When e).

(** Ascending order of instants. *)
Definition byInstant (a b : Prayer.Event) : Prop := instant a <= instant b.

(** What [NextEventAfter] knows about the events [seen] so far when its
    variable [best] holds [best]. *)
Definition nextInv (after : Time.Time) (seen : list Prayer.Event)
    (best : option Prayer.Event) : Prop :=
  match best with
  | Some b =>
    b ∈ seen ∧ Time.unixNano after < instant b
    ∧ ∀ e, e ∈ seen -> Time.unixNano after < instant e -> instant b <= instant e
  | None => ∀ e, e ∈ seen -> instant e <= Time.unixNano after
  end.




(** The Gregorian date string [ParseTimes] works with: the payload's, or
    today's when the payload has none. *)
Definition batchGregDate (resp : Api.Response) (loc : Time.Location) (clock : Z) : string :=
  if String.eqb (Api.Gregorian_Date resp) ""
  then Time.Format_02_01_2006 (Time.NowIn clock loc)
  else Api.Gregorian_Date resp.



(** Days from the epoch to the first day of a month; a month outside
    1..12 carries into the year. *)
Definition monthStart (year month : Z) : Z :=
  let year' := year + (month - 1) / 12 in
  let month' := (month - 1) mod 12 + 1 in
  Time.daysSinceEpoch year'
  + nth (Z.to_nat (month' - 1)) Time.daysBefore 0
  + (if Time.isLeap year' && (3 <=? month') then 1 else 0).

(** Seconds from the epoch to a wall-clock reading, were the wall clock
    on UTC.  Linear in [day], [hour] and [min]: this is the roll-over of
    fields that are out of range. *)
Definition wallSeconds (year month day hour min : Z) : Z :=
  (monthStart year month + (day - 1)) * 86400 + hour * 3600 + min * 60.

(** The instant [time.Date] chooses for a wall-clock reading in a zone. *)
Definition toUTC (l : Time.Location) (unix : Z) : Z :=
  let '(offset, start, end_) := Time.lookup l unix in
  if offset =? 0 then unix
  else
    let utc := unix - offset in
    unix - (if (utc <? start) || (end_ <=? utc) then Time.zoneOffset l utc else offset).


(** The time-of-day token of the row [name], if the payload has the row
    and the row has a token. *)
Definition rowToken (resp : Api.Response) (name : string) : option string :=
  match Api.Timings resp !! name with
  | Some tstr => Prayer.timeToken tstr
  | None => None
  end.

(** Number of colon-separated fields of a token. *)
Definition colonFields (ts : string) : nat := length (Strings.Split ts ":").


(** A token in the form HH:MM of a 24-hour clock, with its hour and
    minute. *)
Definition validHHMM (ts : string) : option (Z * Z) :=
  match ts with
  | String a (String b (String c (String d (String e EmptyString)))) =>
    match Strconv.digitVal a, Strconv.digitVal b, Strconv.digitVal d, Strconv.digitVal e with
    | Some va, Some vb, Some vd, Some ve =>
      if Ascii.eqb c ":" && (10 * va + vb <=? 23) && (10 * vd + ve <=? 59)
      then Some (10 * va + vb, 10 * vd + ve) else None
    | _, _, _, _ => None
    end
  | _ => None
  end.

(** The payload with another table of timings. *)
Definition withTimings (resp : Api.Response) (timings : gmap string string) : Api.Response :=
  {| Api.Timings := timings;
     Api.Gregorian_Date := Api.Gregorian_Date resp;
     Api.Hijri_Date := Api.Hijri_Date resp;
     Api.Hijri_Month_En := Api.Hijri_Month_En resp;
     Api.Hijri_Month_Ar := Api.Hijri_Month_Ar resp;
     Api.Hijri_Weekday_En := Api.Hijri_Weekday_En resp;
     Api.Hijri_Weekday_Ar := Api.Hijri_Weekday_Ar resp;
     Api.Meta_Timezone := Api.Meta_Timezone resp |}.

(** ** Sample payloads and zones *)

(** Saturday 15 June 2024, the date of the samples. *)
Definition sampleResponse (timings : gmap string string) (gregDate tz : string)
  : Api.Response :=
  {| Api.Timings := timings;
     Api.Gregorian_Date := gregDate;
     Api.Hijri_Date := "09-12-1445";
     Api.Hijri_Month_En := "Dhu al-Hijjah";
     Api.Hijri_Month_Ar := "";
     Api.Hijri_Weekday_En := "Al Sabt";
     Api.Hijri_Weekday_Ar := "";
     Api.Meta_Timezone := tz |}.

(** A payload whose Fajr row is no clock time at all. *)
Definition malformedPayload : Api.Response :=
  sampleResponse {[ "Fajr" := "ab:cd"; "Dhuhr" := "12:30 (+03)" ]} "15-06-2024" "UTC".

(** A payload whose Dhuhr row has no colon. *)
Definition colonlessPayload : Api.Response :=
  sampleResponse {[ "Fajr" := "05:12"; "Dhuhr" := "1230" ]} "15-06-2024" "UTC".


(** Europe/London around 2024: GMT until 31 March 2024 01:00 UTC, British
    Summer Time (one hour east) until 27 October 2024 01:00 UTC, GMT
    after. *)
Definition London2024 : Time.Location :=
  {| Time.lookup := fun sec =>
       if sec <? 1711846800 then (0, Time.alpha, 1711846800)
       else if sec <? 1729990800 then (3600, 1711846800, 1729990800)
       else (0, 1729990800, Time.omega) |}.

(** The scenario of the specification: Fajr and Dhuhr in London. *)
Definition londonPayload : Api.Response :=
  sampleResponse {[ "Fajr" := "05:12"; "Dhuhr" := "12:30 (+03)" ]}
                 "15-06-2024" "Europe/London".


(** An environment in which the zones of the samples load. *)
Definition sampleEnv : Time.TZEnv :=
  {| Time.Local := Time.UTC;
     Time.LoadLocation := fun tz =>
       if String.eqb tz "UTC" then Some Time.UTC
       else if String.eqb tz "Europe/London" then Some London2024
       else None |}.

(** A payload without any row. *)
Definition emptyPayload : Api.Response := sampleResponse ∅ "15-06-2024" "UTC".

(** A payload with the Dhuhr row only, at 12:30 UTC. *)
Definition dhuhrPayload : Api.Response :=
  sampleResponse {[ "Dhuhr" := "12:30" ]} "15-06-2024" "UTC".

(** 15 June 2024, 10:00 in London (09:00 UTC). *)
Definition tenInLondon : Z := 1718442000 * Time.Second.

(** 15 June 2024, 10:00 UTC, and the instant of Dhuhr that day. *)
Definition tenOClock : Z := 1718445600 * Time.Second.
Definition dhuhrInstant : Z := 1718454600 * Time.Second.

(** The timers a refresh arms: one per upcoming event of the payload. *)
Definition refreshTimers (env : Time.TZEnv) (arabic : bool)
    (fetched : option Api.Response) (clock : Z) : list Serve.Timer :=
  match fetched with
  | None => []
  | Some resp =>
    let loc := Prayer.TimezoneFromResp env resp in
    map (fun e => {| Serve.ev := e; Serve.hijri := Prayer.HijriString resp arabic |})
        (Prayer.UpcomingEvents (Prayer.ParseTimes resp loc clock)
                               (Time.NowIn clock loc) (24 * Time.Hour))
  end.

(** ** Vocabulary of the further properties *)

(** The waits of a run in which every attempt fails: 0.5 s doubling up to
    the cap of 8 s. *)
Definition backoffSchedule : list Z :=
  [500 * Fetch.Millisecond; 1 * Time.Second; 2 * Time.Second; 4 * Time.Second;
   8 * Time.Second; 8 * Time.Second].

(** A world in which the third attempt succeeds. *)
Definition thirdTimeLucky : Fetch.World :=
  {| Fetch.fetchURL := fun i =>
       if (i <? 2)%nat then inr "executing request: timeout" else inl londonPayload;
     Fetch.cancelled := fun _ => false |}.

(** A byte that can stand in a file name without harm: an ASCII letter or
    digit, [-] or [_]. *)
Definition fileNameChar (c : ascii) : Prop := Cache.kept (Strings.byte c) = true.

(** The bytes of a string. *)
Definition bytesOf (s : string) : list ascii := list_ascii_of_string s.

(** A byte of a bare clock token: a digit or a colon. *)
Definition clockChar (c : ascii) : bool :=
  match Strconv.digitVal c with Some _ => true | None => Ascii.eqb c ":" end.

(** The timers all ticks of a trace arm, in the order of the ticks. *)
Definition armedByTicks (env : Time.TZEnv) (arabic : bool) (trs : list Serve.Trigger)
  : list Serve.Timer :=
  concat (map (fun tr => match tr with
                         | Serve.Tick fetched clock => refreshTimers env arabic fetched clock
                         | Serve.Elapse _ => []
                         end) trs).


(** The components [HijriString] joins: date, month and weekday in the
    language asked for. *)
Definition hijriParts (resp : Api.Response) (arabic : bool) : list string :=
  [Api.Hijri_Date resp;
   if arabic then Api.Hijri_Month_Ar resp else Api.Hijri_Month_En resp;
   if arabic then Api.Hijri_Weekday_Ar resp else Api.Hijri_Weekday_En resp].

(** A payload that also has rows the parser does not know. *)
Definition richPayload : Api.Response :=
  sampleResponse
    {[ "Fajr" := "05:12"; "Dhuhr" := "12:30 (+03)"; "Midnight" := "00:58"; "Imsak" := "05:02" ]}
    "15-06-2024" "Europe/London".

(** A bare clock token: digits and colons only. *)
Fixpoint allClock (s : string) : bool :=
  match s with
  | EmptyString => true
  | String c r => clockChar c && allClock r
  end.





(** * Properties *)

(** ** Sorting and folds *)

Section SortFacts.
Context {A : Type} (key : A -> Z).

Let less (a b : A) : bool := key a <? key b.
Let asc (a b : A) : Prop := key a <= key b.
Let desc (a b : A) : Prop := key b <= key a.

Lemma sink_perm x left : Sort.sink less x left ≡ₚ x :: left.
Proof.
  induction left as [|y l IH]; simpl; [done|].
  destruct (less x y); [|done].
  rewrite IH. apply Permutation_swap.
Qed.

Lemma sink_desc x left :
  StronglySorted desc left -> StronglySorted desc (Sort.sink less x left).
Proof.
  induction left as [|y l IH]; simpl; intros Hs.
  - repeat constructor.
  - apply StronglySorted_inv in Hs as [Hl Hy].
    destruct (less x y) eqn:Hxy; unfold less in Hxy.
    + constructor; [auto|].
      rewrite sink_perm. constructor; [unfold desc; lia | done].
    + constructor; [by constructor|].
      constructor; [unfold desc; lia|].
      eapply Forall_impl; [exact Hy|]. unfold desc. intros; lia.
Qed.

Lemma fold_sink_perm data left :
  fold_left (fun l x => Sort.sink less x l) data left ≡ₚ rev data ++ left.
Proof.
  revert left. induction data as [|x d IH]; intros left; simpl; [done|].
  by rewrite IH, sink_perm, <- app_assoc.
Qed.

Lemma fold_sink_desc data left :
  StronglySorted desc left ->
  StronglySorted desc (fold_left (fun l x => Sort.sink less x l) data left).
Proof.
  revert left. induction data as [|x d IH]; intros left Hs; simpl; [done|].
  apply IH, sink_desc, Hs.
Qed.

Lemma StronglySorted_rev_desc l :
  StronglySorted desc l -> StronglySorted asc (rev l).
Proof.
  induction 1 as [|x l Hs IH Hx]; simpl; [constructor|].
  apply StronglySorted_app_2; [|done|repeat constructor].
  intros a b Ha Hb. apply list_elem_of_singleton in Hb as ->.
  apply list_elem_of_In, in_rev, list_elem_of_In in Ha.
  rewrite Forall_forall in Hx. by apply Hx.
Qed.

Lemma Slice_perm data : Sort.Slice less data ≡ₚ data.
Proof.
  unfold Sort.Slice.
  by rewrite <- Permutation_rev, fold_sink_perm, app_nil_r, <- Permutation_rev.
Qed.

Lemma Slice_sorted data : StronglySorted asc (Sort.Slice less data).
Proof. apply StronglySorted_rev_desc, fold_sink_desc. constructor. Qed.

(** On a slice that is already in order no swap happens. *)
Lemma fold_sink_sorted data left :
  StronglySorted asc data ->
  Forall (fun y => Forall (asc y) data) left ->
  fold_left (fun l x => Sort.sink less x l) data left = rev data ++ left.
Proof.
  revert left. induction data as [|x d IH]; intros left Hs Hl; simpl; [done|].
  apply StronglySorted_inv in Hs as [Hd Hx].
  assert (Sort.sink less x left = x :: left) as ->.
  { destruct left as [|y l]; [done|]. simpl.
    apply Forall_cons in Hl as [Hy _]. apply Forall_cons in Hy as [Hy _].
    unfold less, asc in *. destruct (key x <? key y) eqn:E; [lia|done]. }
  rewrite IH, <- app_assoc; [done|done|].
  constructor; [done|].
  eapply Forall_impl; [exact Hl|]. simpl. intros y Hy.
  by apply Forall_cons in Hy as [_ ?].
Qed.

Lemma Slice_sorted_id data :
  StronglySorted asc data -> Sort.Slice less data = data.
Proof.
  intros Hs. unfold Sort.Slice.
  rewrite fold_sink_sorted by (done || constructor).
  by rewrite app_nil_r, rev_involutive.
Qed.

Lemma fold_left_select {B : Type} (p : B -> bool) (l acc : list B) :
  fold_left (fun r e => if p e then r ++ [e] else r) l acc = acc ++ List.filter p l.
Proof.
  revert acc. induction l as [|e l IH]; intros acc; simpl.
  - by rewrite app_nil_r.
  - rewrite IH. destruct (p e); [|done]. by rewrite <- app_assoc.
Qed.
End SortFacts.

(** ** The event queries *)

Section Queries.
Import Prayer.

Lemma lessWhen_instant a b : lessWhen a b = (instant a <? instant b).
Proof. reflexivity. Qed.

Lemma NextEventAfter_loop after events seen best :
  nextInv after seen best ->
  nextInv after (seen ++ events)
    (fold_left
       (fun best e =>
          if Time.After (When e) after then
            match best with
            | None => Some e
            | Some b => if Time.Before (When e) (When b) then Some e else best
            end
          else best)
       events best).
Proof.
  revert seen best. induction events as [|x es IH]; intros seen best Hinv; simpl.
  - by rewrite app_nil_r.
  - replace (seen ++ x :: es) with ((seen ++ [x]) ++ es) by by rewrite <- app_assoc.
    apply IH. unfold Time.After, Time.Before. fold (instant x).
    destruct (Time.unixNano after <? instant x) eqn:Hx.
    + apply Z.ltb_lt in Hx. destruct best as [b|]; simpl in *.
      * destruct Hinv as (Hb & Hab & Hmin). fold (instant b).
        destruct (instant x <? instant b) eqn:Hxb; simpl.
        -- apply Z.ltb_lt in Hxb. split; [set_solver|]. split; [done|].
           intros e He Hae. apply elem_of_app in He as [He|He].
           ++ specialize (Hmin e He Hae). lia.
           ++ apply list_elem_of_singleton in He as ->. lia.
        -- apply Z.ltb_ge in Hxb. split; [set_solver|]. split; [done|].
           intros e He Hae. apply elem_of_app in He as [He|He]; [auto|].
           by apply list_elem_of_singleton in He as ->.
      * split; [set_solver|]. split; [done|].
        intros e He Hae. apply elem_of_app in He as [He|He].
        -- specialize (Hinv e He). lia.
        -- by apply list_elem_of_singleton in He as ->.
    + apply Z.ltb_ge in Hx. destruct best as [b|]; simpl in *.
      * destruct Hinv as (Hb & Hab & Hmin). split; [set_solver|]. split; [done|].
        intros e He Hae. apply elem_of_app in He as [He|He]; [auto|].
        apply list_elem_of_singleton in He as ->. lia.
      * intros e He. apply elem_of_app in He as [He|He]; [auto|].
        by apply list_elem_of_singleton in He as ->.
Qed.

(** C5.  [NextEventAfter] returns an event of the list whose instant is
    strictly after the reference instant and no later than any other such
    event; it returns none exactly when no event of the list is strictly
    after the reference instant, as for the empty list.  So it never
    returns an event at or before the reference instant. *)
Theorem NextEventAfter_spec (events : list Event) (after : Time.Time) :
  match NextEventAfter events after with
  | Some b =>
    b ∈ events ∧ Time.unixNano after < instant b
    ∧ ∀ e, e ∈ events -> Time.unixNano after < instant e -> instant b <= instant e
  | None => ∀ e, e ∈ events -> instant e <= Time.unixNano after
  end
  ∧ NextEventAfter [] after = None.
Proof.
  split; [|reflexivity].
  apply (NextEventAfter_loop after events [] None).
  intros e He. by apply not_elem_of_nil in He.
Qed.

Lemma UpcomingEvents_unfold events from within :
  UpcomingEvents events from within
  = Sort.Slice lessWhen
      (List.filter
         (fun e => Time.After (When e) from && Time.Before (When e) (Time.Add from within))
         events).
Proof. unfold UpcomingEvents. by rewrite fold_left_select. Qed.

Lemma Slice_lessWhen_perm l : Sort.Slice lessWhen l ≡ₚ l.
Proof. apply (Slice_perm instant). Qed.

Lemma Slice_lessWhen_sorted l : StronglySorted byInstant (Sort.Slice lessWhen l).
Proof. apply (Slice_sorted instant). Qed.

Lemma Slice_lessWhen_id l :
  StronglySorted byInstant l -> Sort.Slice lessWhen l = l.
Proof. apply (Slice_sorted_id instant). Qed.

Lemma filter_window events from within :
  List.filter
    (fun e => Time.After (When e) from && Time.Before (When e) (Time.Add from within))
    events
  = filter (fun e => Time.unixNano from < instant e < Time.unixNano from + within) events.
Proof.
  induction events as [|e es IH]; [done|]. simpl.
  rewrite filter_cons, IH. unfold Time.After, Time.Before, Time.Add. simpl.
  fold (instant e).
  destruct (Time.unixNano from <? instant e) eqn:H1;
    destruct (instant e <? Time.unixNano from + within) eqn:H2; simpl;
    try apply Z.ltb_lt in H1; try apply Z.ltb_lt in H2;
    try apply Z.ltb_ge in H1; try apply Z.ltb_ge in H2;
    case_decide; (done || lia).
Qed.

Lemma filter_all {B : Type} (P : B -> Prop) `{!∀ x, Decision (P x)} (l : list B) :
  Forall P l -> filter P l = l.
Proof.
  induction 1 as [|x l Hx Hl IH]; [done|].
  rewrite filter_cons, IH. by case_decide.
Qed.

Lemma UpcomingEvents_window events from within :
  UpcomingEvents events from within
    ≡ₚ filter (fun e => Time.unixNano from < instant e < Time.unixNano from + within) events
  ∧ StronglySorted byInstant (UpcomingEvents events from within).
Proof.
  rewrite UpcomingEvents_unfold, filter_window.
  split; [apply Slice_lessWhen_perm|apply Slice_lessWhen_sorted].
Qed.

(** C6.  [UpcomingEvents] returns exactly the events whose instant lies
    strictly between [from] and [from + within] (each as often as it
    occurs), in ascending order of instants.  It is a function of its
    three arguments, reading no clock and leaving [events] as it is, and
    applying it to its own output gives that output again. *)
Theorem UpcomingEvents_spec (events : list Event) (from : Time.Time) (within : Z) :
  UpcomingEvents events from within
    ≡ₚ filter (fun e => Time.unixNano from < instant e < Time.unixNano from + within) events
  ∧ StronglySorted byInstant (UpcomingEvents events from within)
  ∧ UpcomingEvents (UpcomingEvents events from within) from within
    = UpcomingEvents events from within.
Proof.
  destruct (UpcomingEvents_window events from within) as [Hperm Hsort].
  split; [done|]. split; [done|].
  rewrite (UpcomingEvents_unfold (UpcomingEvents events from within)), filter_window.
  rewrite filter_all; [by apply Slice_lessWhen_id|].
  rewrite Hperm. apply Forall_forall. intros e He.
  by apply list_elem_of_filter in He as [? _].
Qed.
End Queries.

(** ** Formatting *)

Section Formatting.
Import Prayer.
Local Arguments String.append _ _ : simpl nomatch.

Lemma append_assoc (a b c : string) : (a +:+ b) +:+ c = a +:+ (b +:+ c).
Proof. induction a as [|x a IH]; simpl; congruence. Qed.


Lemma digitVal_digitChar k :
  0 <= k <= 9 -> Strconv.digitVal (Fmt.digitChar k) = Some k.
Proof.
  intros Hk.
  assert (k = 0 ∨ k = 1 ∨ k = 2 ∨ k = 3 ∨ k = 4 ∨ k = 5 ∨ k = 6 ∨ k = 7 ∨ k = 8 ∨ k = 9)
    as Hc by lia.
  repeat (destruct Hc as [->|Hc]; [reflexivity|]). by subst.
Qed.








End Formatting.

(** ** The payload parser *)

Section Parser.
Import Prayer.
Local Arguments String.append _ _ : simpl nomatch.

Lemma fold_left_omap {B C : Type} (f : B -> option C) (l : list B) (acc : list C) :
  fold_left (fun r x => match f x with None => r | Some e => r ++ [e] end) l acc
  = acc ++ omap f l.
Proof.
  revert acc. induction l as [|x l IH]; intros acc; simpl.
  - by rewrite app_nil_r.
  - rewrite IH. destruct (f x); [|done]. by rewrite <- app_assoc.
Qed.

Lemma ParseTimes_unfold resp loc clock :
  ParseTimes resp loc clock
  = Sort.Slice lessWhen
      (omap (rowEvent (Api.Timings resp) (batchGregDate resp loc clock) loc clock)
            StandardOrder).
Proof. unfold ParseTimes. by rewrite fold_left_omap. Qed.

Lemma elem_of_ParseTimes resp loc clock e :
  e ∈ ParseTimes resp loc clock
  <-> ∃ name, name ∈ StandardOrder
        ∧ rowEvent (Api.Timings resp) (batchGregDate resp loc clock) loc clock name = Some e.
Proof. by rewrite ParseTimes_unfold, Slice_lessWhen_perm, list_elem_of_omap. Qed.

Lemma rowEvent_Name timings g loc clock name e :
  rowEvent timings g loc clock name = Some e -> Name e = name.
Proof.
  unfold rowEvent. intros H.
  destruct (timings !! name); [|done].
  destruct (timeToken _); [|done].
  destruct (parseDateTime _ _ _ _); [|done].
  by injection H as <-.
Qed.

(** C7.  Whatever the payload, the events [ParseTimes] returns are in
    ascending order of their instants: the order of the result is that
    of the final sort, not that of the name table or of the rows. *)
Theorem ParseTimes_sorted (resp : Api.Response) (loc : Time.Location) (clock : Z) :
  StronglySorted byInstant (ParseTimes resp loc clock).
Proof. rewrite ParseTimes_unfold. apply Slice_lessWhen_sorted. Qed.

(** [norm] is division with remainder, rounding down. *)
Lemma norm_floor hi lo base :
  0 < base -> Time.norm hi lo base = (hi + lo / base, lo mod base).
Proof.
  intros Hb. unfold Time.norm.
  pose proof (Z.div_mod lo base ltac:(lia)) as Hdm.
  pose proof (Z.mod_pos_bound lo base Hb) as Hm.
  destruct (lo <? 0) eqn:Hneg.
  - apply Z.ltb_lt in Hneg.
    rewrite Z.quot_div_nonneg by lia.
    assert ((- lo - 1) / base = - (lo / base) - 1) as ->.
    { symmetry. apply (Z.div_unique _ _ _ (base - lo mod base - 1)); [lia|nia]. }
    replace (base <=? lo + (- (lo / base) - 1 + 1) * base) with false.
    + f_equal; nia.
    + symmetry. apply Z.leb_gt. nia.
  - apply Z.ltb_ge in Hneg.
    destruct (base <=? lo) eqn:Hge.
    + rewrite Z.quot_div_nonneg by lia. f_equal; nia.
    + apply Z.leb_gt in Hge.
      rewrite Z.div_small, Z.mod_small by lia. f_equal; lia.
Qed.

(** [time.Date] at whole minutes: the wall-clock reading in seconds,
    moved to UTC. *)
Lemma Date_wall year month day hour min l :
  Time.Date year month day hour min 0 0 l
  = {| Time.unixNano := toUTC l (wallSeconds year month day hour min) * 1000000000;
       Time.loc := l |}.
Proof.
  unfold Time.Date, toUTC, wallSeconds, monthStart, Time.secondsPerDay.
  rewrite (norm_floor year) by lia. cbv beta iota zeta.
  rewrite (norm_floor 0 0) by lia. cbv beta iota zeta.
  change (0 + 0 / 1000000000) with 0. change (0 mod 1000000000) with 0.
  rewrite (norm_floor min 0 60) by lia. cbv beta iota zeta.
  change (0 / 60) with 0. change (0 mod 60) with 0. rewrite Z.add_0_r.
  rewrite (norm_floor hour min 60) by lia. cbv beta iota zeta.
  rewrite (norm_floor day _ 24) by lia. cbv beta iota zeta.
  replace ((month - 1) mod 12 + 1 - 1) with ((month - 1) mod 12) by lia.
  set (H := hour + min / 60).
  set (ms := Time.daysSinceEpoch _ + nth _ _ _).
  set (leap := Time.isLeap _ && _).
  set (u1 := (_ + (day + H / 24 - 1)) * 86400 + _).
  set (u2 := (_ + (day - 1)) * 86400 + _ + _).
  assert (u1 = u2) as ->.
  { subst u1 u2. pose proof (Z.div_mod H 24 ltac:(lia)).
    pose proof (Z.div_mod min 60 ltac:(lia)).
    destruct leap; subst H; lia. }
  destruct (Time.lookup l u2) as [[offset start] end_].
  destruct (offset =? 0); f_equal; lia.
Qed.
End Parser.

Section Rows.
Import Prayer.
Local Arguments String.append _ _ : simpl nomatch.


Lemma parseDateTime_err g ts loc clock :
  (colonFields ts < 2)%nat ->
  parseDateTime g ts loc clock = inr ("invalid time format: " +:+ ts).
Proof.
  unfold colonFields, parseDateTime. intros Hlen.
  by apply Nat.ltb_lt in Hlen as ->.
Qed.

Lemma rowEvent_token resp g loc clock name ts :
  rowToken resp name = Some ts ->
  rowEvent (Api.Timings resp) g loc clock name
  = match parseDateTime g ts loc clock with
    | inl dt => Some {| Name := name; When := dt |}
    | inr _ => None
    end.
Proof.
  unfold rowToken, rowEvent. destruct (Api.Timings resp !! name); [|done].
  by intros ->.
Qed.

Lemma rowEvent_no_token resp g loc clock name :
  rowToken resp name = None -> rowEvent (Api.Timings resp) g loc clock name = None.
Proof.
  unfold rowToken, rowEvent. destruct (Api.Timings resp !! name); [|done].
  by intros ->.
Qed.

Lemma omap_ext_in {B C : Type} (f g : B -> option C) (l : list B) :
  (∀ x, x ∈ l -> f x = g x) -> omap f l = omap g l.
Proof.
  induction l as [|x l IH]; intros H; [done|]. csimpl.
  rewrite (H x) by set_solver. rewrite IH by set_solver. done.
Qed.

(** C3, as the code has it.  A row whose token has fewer than two
    colon-separated fields (no colon at all) is skipped, and only that
    row: the result is the one for the payload without the row, and it
    holds no event of that name. *)
Theorem ParseTimes_skips_colonless
    (resp : Api.Response) (loc : Time.Location) (clock : Z) (name ts : string) :
  rowToken resp name = Some ts ->
  (colonFields ts < 2)%nat ->
  ParseTimes resp loc clock
  = ParseTimes (withTimings resp (delete name (Api.Timings resp))) loc clock
  ∧ ∀ e, e ∈ ParseTimes resp loc clock -> Name e ≠ name.
Proof.
  intros Htok Hlen.
  assert (Hnone : rowEvent (Api.Timings resp) (batchGregDate resp loc clock) loc clock name
                  = None).
  { rewrite (rowEvent_token _ _ _ _ _ _ Htok), parseDateTime_err; done. }
  split.
  - rewrite !ParseTimes_unfold. f_equal.
    change (batchGregDate (withTimings resp _) loc clock) with (batchGregDate resp loc clock).
    apply omap_ext_in. intros n _. simpl.
    destruct (decide (n = name)) as [->|Hne].
    + rewrite Hnone. unfold rowEvent. by rewrite lookup_delete_eq.
    + unfold rowEvent. by rewrite lookup_delete_ne.
  - intros e He Hname. apply elem_of_ParseTimes in He as (n & _ & Hn).
    apply rowEvent_Name in Hn as Hn'. congruence.
Qed.

Lemma ParseTimes_skips_colonless_witness :
  ParseTimes colonlessPayload Time.UTC 0
  = ParseTimes (withTimings colonlessPayload (delete "Dhuhr" (Api.Timings colonlessPayload)))
               Time.UTC 0
  ∧ ∀ e, e ∈ ParseTimes colonlessPayload Time.UTC 0 -> Name e ≠ "Dhuhr".
Proof.
  apply (ParseTimes_skips_colonless colonlessPayload Time.UTC 0 "Dhuhr" "1230").
  - vm_compute. reflexivity.
  - vm_compute. lia.
Defined.

(** C3 as stated fails: the Fajr row ["ab:cd"] is no HH:MM time, yet it
    is not skipped; it becomes an event at 00:00 of the day. *)
Lemma malformed_token_not_skipped :
  rowToken malformedPayload "Fajr" = Some "ab:cd"
  ∧ validHHMM "ab:cd" = None
  ∧ map (fun e => (Name e, instant e)) (ParseTimes malformedPayload Time.UTC 0)
    = [("Fajr", 1718409600000000000); ("Dhuhr", 1718454600000000000)].
Proof. vm_compute. repeat split. Qed.


End Rows.

Section ClockOrder.
Import Prayer.
Local Arguments String.append _ _ : simpl nomatch.










End ClockOrder.

(** ** Time zone resolution and the status line *)

Section StatusLine.
Import Prayer.
Local Arguments String.append _ _ : simpl nomatch.

(** C9.  [TimezoneFromResp] always returns a location: the system's
    local zone when the payload names no zone or names one that does not
    load, and the loaded zone otherwise.  Resolving the zone cannot make
    the parse fail. *)
Theorem TimezoneFromResp_spec (env : Time.TZEnv) (resp : Api.Response) :
  (Api.Meta_Timezone resp = "" -> TimezoneFromResp env resp = Time.Local env)
  ∧ (Api.Meta_Timezone resp ≠ "" ->
     Time.LoadLocation env (Api.Meta_Timezone resp) = None ->
     TimezoneFromResp env resp = Time.Local env)
  ∧ (∀ l, Api.Meta_Timezone resp ≠ "" ->
          Time.LoadLocation env (Api.Meta_Timezone resp) = Some l ->
          TimezoneFromResp env resp = l).
Proof.
  unfold TimezoneFromResp. repeat split.
  - by intros ->.
  - intros Hne Hload. apply String.eqb_neq in Hne. by rewrite Hne, Hload.
  - intros l Hne Hload. apply String.eqb_neq in Hne. by rewrite Hne, Hload.
Qed.

(** Without a next event the status line reads ["Internal Error"]. *)
Lemma Build_without_next env resp ampm arabic short clock :
  NextEventAfter (ParseTimes resp (TimezoneFromResp env resp) clock)
                 (Time.NowIn clock (TimezoneFromResp env resp)) = None ->
  Waybar.Text (Waybar.Build env resp ampm arabic short clock) = "Internal Error".
Proof. unfold Waybar.Build. intros ->. reflexivity. Qed.

(** The other revision of [Build] says ["No upcoming prayer"] there. *)
Lemma BuildArgs_without_next env resp events ampm arabic short clock :
  WaybarArgs.Text (WaybarArgs.Build env resp None events ampm arabic short clock)
  = "No upcoming prayer".
Proof. reflexivity. Qed.

(** C2, on the code.  For every payload whose parsed event sequence is
    empty [Build] does return a record, but its [text] is
    ["Internal Error"] and the tooltip repeats that text after the date
    line: not the "no upcoming prayer" text. *)
Theorem Build_no_events
    (env : Time.TZEnv) (resp : Api.Response) (ampm arabic short : bool) (clock : Z) :
  ParseTimes resp (TimezoneFromResp env resp) clock = [] ->
  Waybar.Build env resp ampm arabic short clock
  = {| Waybar.Text := "Internal Error";
       Waybar.Tooltip :=
         Strings.Join
           ((if negb (String.eqb (HijriString resp arabic) "")
             then ["üìÖ " +:+ HijriString resp arabic] else [])
            ++ ["Internal Error"; ""; "Today's Schedule:"])
           (String (ascii_of_N 10) "");
       Waybar.Class := "adhan" |}.
Proof.
  intros Hempty. unfold Waybar.Build. rewrite Hempty.
  change (NextEventAfter [] _) with (@None Event). cbv beta iota zeta.
  destruct (negb _); reflexivity.
Qed.

Lemma Build_no_events_witness :
  Waybar.Build sampleEnv emptyPayload false false false tenOClock
  = {| Waybar.Text := "Internal Error";
       Waybar.Tooltip :=
         Strings.Join
           ((if negb (String.eqb (HijriString emptyPayload false) "")
             then ["üìÖ " +:+ HijriString emptyPayload false] else [])
            ++ ["Internal Error"; ""; "Today's Schedule:"])
           (String (ascii_of_N 10) "");
       Waybar.Class := "adhan" |}.
Proof.
  apply (Build_no_events sampleEnv emptyPayload false false false tenOClock).
  vm_compute. reflexivity.
Defined.
End StatusLine.

(** ** The serve daemon *)

Section Daemon.
Import Prayer.

Lemma arm_loop (now : Time.Time) (h : string) (upcoming : list Event) (st : Serve.Daemon) :
  Forall (fun e => Time.unixNano now < instant e) upcoming ->
  let st' :=
    fold_left
      (fun st e =>
         if Time.Before (When e) now then st else Serve.scheduleNotification e h st)
      upcoming st in
  Serve.armed st'
  = Serve.armed st ++ map (fun e => {| Serve.ev := e; Serve.hijri := h |}) upcoming
  ∧ Serve.notified st' = Serve.notified st.
Proof.
  revert st. induction upcoming as [|e es IH]; intros st Hall.
  - simpl. by rewrite app_nil_r.
  - apply Forall_cons in Hall as [He Hes]. cbn [fold_left map].
    destruct (Time.Before (When e) now) eqn:Hb.
    { unfold Time.Before in Hb. apply Z.ltb_lt in Hb. unfold instant in He. lia. }
    destruct (IH (Serve.scheduleNotification e h st) Hes) as [Ha Hn].
    cbv zeta in Ha, Hn. rewrite Ha, Hn. simpl. by rewrite <- app_assoc.
Qed.

Lemma UpcomingEvents_after events from within :
  Forall (fun e => Time.unixNano from < instant e) (UpcomingEvents events from within).
Proof.
  apply Forall_forall. intros e He.
  destruct (UpcomingEvents_window events from within) as [Hperm _].
  rewrite Hperm in He. apply list_elem_of_filter in He. lia.
Qed.

Lemma elapse_conserves clock st :
  Serve.notified (Serve.elapse clock st) ++ Serve.armed (Serve.elapse clock st)
    ≡ₚ Serve.notified st ++ Serve.armed st.
Proof.
  unfold Serve.elapse. simpl. rewrite <- app_assoc. apply Permutation_app_head.
  induction (Serve.armed st) as [|t ts IH]; [done|].
  rewrite !filter_cons.
  destruct (Time.unixNano (When (Serve.ev t)) <=? clock); simpl.
  - by rewrite IH.
  - by rewrite <- Permutation_middle, IH.
Qed.

(** C1, as the code has it.  A refresh invalidates nothing: the timers
    armed by earlier cycles stay armed, and the refresh adds one timer for
    every upcoming event of the payload (none when the fetch failed or
    no event was parsed).  No notification is made by the refresh itself.
    As time passes every armed timer fires exactly once, when its instant
    has come. *)
Theorem scheduleEvents_accumulates
    (env : Time.TZEnv) (arabic : bool) (fetched : option Api.Response)
    (clock : Z) (st : Serve.Daemon) :
  Serve.armed (Serve.scheduleEvents env arabic fetched clock st)
  = Serve.armed st ++ refreshTimers env arabic fetched clock
  ∧ Serve.notified (Serve.scheduleEvents env arabic fetched clock st) = Serve.notified st
  ∧ Serve.notified (Serve.elapse clock st) ++ Serve.armed (Serve.elapse clock st)
      ≡ₚ Serve.notified st ++ Serve.armed st
  ∧ Forall (fun t => clock < instant (Serve.ev t)) (Serve.armed (Serve.elapse clock st))
  ∧ ∃ fired, Serve.notified (Serve.elapse clock st) = Serve.notified st ++ fired
             ∧ Forall (fun t => instant (Serve.ev t) <= clock) fired.
Proof.
  split; [|split; [|split; [apply elapse_conserves|split]]].
  - unfold Serve.scheduleEvents, refreshTimers. destruct fetched as [resp|].
    + destruct (length _ =? 0)%nat eqn:Hlen.
      * apply Nat.eqb_eq, length_zero_iff_nil in Hlen. rewrite Hlen.
        by rewrite app_nil_r.
      * apply arm_loop, UpcomingEvents_after.
    + by rewrite app_nil_r.
  - unfold Serve.scheduleEvents. destruct fetched as [resp|]; [|done].
    destruct (length _ =? 0)%nat; [done|].
    apply arm_loop, UpcomingEvents_after.
  - unfold Serve.elapse. simpl. apply Forall_forall. intros t Ht.
    apply list_elem_of_filter in Ht as [Ht _]. apply Z.leb_gt in Ht. done.
  - unfold Serve.elapse. simpl. eexists. split; [done|].
    apply Forall_forall. intros t Ht.
    apply list_elem_of_filter in Ht as [Ht _]. apply Z.leb_le in Ht. done.
Qed.

(** C1 as stated fails.  Two refreshes one minute apart, both before
    Dhuhr, leave two timers armed for the one event, and both fire: the
    notification for Dhuhr is made twice. *)
Lemma refresh_fires_twice :
  map (fun t => (Name (Serve.ev t), instant (Serve.ev t)))
      (Serve.armed
         (Serve.run sampleEnv false
            [Serve.Tick (Some dhuhrPayload) tenOClock;
             Serve.Tick (Some dhuhrPayload) (tenOClock + Time.Minute)]))
  = [("Dhuhr", dhuhrInstant); ("Dhuhr", dhuhrInstant)]
  ∧ Serve.timesNotified "Dhuhr" dhuhrInstant
      (Serve.run sampleEnv false
         [Serve.Tick (Some dhuhrPayload) tenOClock;
          Serve.Tick (Some dhuhrPayload) (tenOClock + Time.Minute);
          Serve.Elapse dhuhrInstant])
    = 2%nat.
Proof. vm_compute. split; reflexivity. Qed.
End Daemon.

(** ** The scenarios of the specification *)

Section Scenarios.
Import Prayer.

Example scenario_next_is_Dhuhr :
  option_map (fun e => (Name e, FormatTime (When e) false))
    (NextEventAfter (ParseTimes londonPayload London2024 tenInLondon)
                    (Time.NowIn tenInLondon London2024))
  = Some ("Dhuhr", "12:30").
Proof. vm_compute. reflexivity. Qed.

Example scenario_status_text :
  Waybar.Text (Waybar.Build sampleEnv londonPayload false false false tenInLondon)
  = "Dhuhr 12:30 (2h30m)".
Proof. vm_compute. reflexivity. Qed.

Example scenario_clock_formats :
  FormatTime (Time.Date 2024 6 15 14 5 0 0 London2024) false = "14:05"
  ∧ FormatTime (Time.Date 2024 6 15 14 5 0 0 London2024) true = "02:05 PM".
Proof. vm_compute. split; reflexivity. Qed.

Example scenario_no_rows_no_timers :
  Serve.armed (Serve.scheduleEvents sampleEnv false (Some emptyPayload) tenOClock Serve.start)
  = [].
Proof. vm_compute. reflexivity. Qed.

Example scenario_today_from_clock :
  batchGregDate (sampleResponse ∅ "" "UTC") London2024 tenInLondon = "15-06-2024".
Proof. vm_compute. reflexivity. Qed.
End Scenarios.

(** ** The cache's file names *)

Section CacheNames.
Lemma sanitizeLoop_chars s : Forall fileNameChar (bytesOf (Cache.sanitizeLoop s)).
Proof.
  unfold bytesOf. induction s as [|c r IH]; simpl; [constructor|].
  destruct (Cache.kept (Strings.byte c)) eqn:Hk; simpl.
  - by constructor.
  - destruct (Strings.byte c =? 32); simpl; [|done].
    constructor; [reflexivity|done].
Qed.

Lemma sanitizeLoop_fixed s :
  Forall fileNameChar (bytesOf s) -> Cache.sanitizeLoop s = s.
Proof.
  unfold bytesOf. induction s as [|c r IH]; simpl; [done|].
  intros H. apply Forall_cons in H as [Hc Hr].
  unfold fileNameChar in Hc. rewrite Hc. by rewrite IH.
Qed.

Lemma length_zero_string s : (String.length s =? 0)%nat = true -> s = "".
Proof. by destruct s. Qed.

Lemma sanitize_parts s :
  Cache.sanitize s ≠ "" ∧ Forall fileNameChar (bytesOf (Cache.sanitize s)).
Proof.
  unfold Cache.sanitize.
  destruct (String.length (Cache.sanitizeLoop s) =? 0)%nat eqn:Hlen.
  - split; [done|]. repeat constructor.
  - split; [|apply sanitizeLoop_chars].
    intros Hnil. by rewrite Hnil in Hlen.
Qed.

(** X1.  Whatever the city or country, [sanitize] returns a name that is
    not empty and holds only ASCII letters, digits, [-] and [_]: no path
    separator, dot or blank can reach the cache's file name through
    it. *)
Theorem sanitize_file_name (s : string) :
  Cache.sanitize s ≠ "" ∧ Forall fileNameChar (bytesOf (Cache.sanitize s)).
Proof. apply sanitize_parts. Qed.

(** X2.  [sanitize] is idempotent: a name it returned is returned
    unchanged, the fallback ["default"] included. *)
Theorem sanitize_idempotent (s : string) :
  Cache.sanitize (Cache.sanitize s) = Cache.sanitize s.
Proof.
  destruct (sanitize_parts s) as [Hne Hchars].
  unfold Cache.sanitize at 1. rewrite (sanitizeLoop_fixed _ Hchars).
  destruct (String.length (Cache.sanitize s) =? 0)%nat eqn:Hlen; [|done].
  by apply length_zero_string in Hlen.
Qed.
End CacheNames.

(** ** The client's retry loop *)

Section Retries.
Ltac retry_from w i n :=
  lazymatch n with
  | O => idtac
  | S ?n' =>
    destruct (Fetch.fetchURL w i) as [?resp|?err] eqn:?;
    [|destruct (Fetch.cancelled w i) eqn:?; [|retry_from w (S i) n']]
  end.

Ltac retry_cases w :=
  unfold Fetch.fetchWithRetries, Fetch.MaxRetries; simpl;
  retry_from w 0%nat 6%nat;
  cbv zeta; cbn [Fetch.result Fetch.attempts Fetch.slept Nat.sub].

(** X3.  [fetchWithRetries] calls [fetchURL] at least once and at most
    six times; the waits it sleeps through are the first ones of 0.5 s,
    1 s, 2 s, 4 s, 8 s, 8 s (one fewer than the calls, or all six after
    six failures), so no wait exceeds 8 s and the loop sleeps 23.5 s at
    most. *)
Theorem fetchWithRetries_bounded (w : Fetch.World) :
  let r := Fetch.fetchWithRetries w in
  (1 <= Fetch.attempts r <= 6)%nat
  ∧ (Fetch.slept r = take (Fetch.attempts r - 1) backoffSchedule
     ∨ Fetch.slept r = backoffSchedule)
  ∧ Forall (fun d => 500 * Fetch.Millisecond <= d <= 8 * Time.Second) (Fetch.slept r)
  ∧ foldr Z.add 0 (Fetch.slept r) <= 23500 * Fetch.Millisecond.
Proof.
  retry_cases w;
    (split; [lia|]);
    (split; [first [left; reflexivity | right; reflexivity]|]);
    (split;
     [repeat (apply Forall_cons; split;
              [unfold Fetch.Millisecond, Time.Second; lia|]);
      by apply Forall_nil
     |cbn [foldr]; unfold Fetch.Millisecond, Time.Second; lia]).
Qed.

(** X4.  What [fetchWithRetries] returns.  Every attempt before the last
    one failed and was followed by a full wait.  The result is the
    response of the last attempt when that one succeeded; the context's
    error when the last attempt failed and the context ended during the
    wait after it; and otherwise, after six failed attempts and a sixth
    wait, an error that wraps the error of the sixth attempt. *)
Theorem fetchWithRetries_result (w : Fetch.World) :
  let r := Fetch.fetchWithRetries w in
  let last := (Fetch.attempts r - 1)%nat in
  (∀ j, (j < last)%nat -> ∃ e, Fetch.fetchURL w j = inr e ∧ Fetch.cancelled w j = false)
  ∧ match Fetch.result r with
    | inl resp => Fetch.fetchURL w last = inl resp
    | inr Fetch.ContextDone =>
      (∃ e, Fetch.fetchURL w last = inr e) ∧ Fetch.cancelled w last = true
    | inr (Fetch.FetchFailed n e) =>
      n = 6%nat ∧ Fetch.attempts r = 6%nat
      ∧ Fetch.fetchURL w last = inr e ∧ Fetch.cancelled w last = false
      ∧ Fetch.slept r = backoffSchedule
    end.
Proof.
  retry_cases w;
    (split;
     [intros j Hj; repeat (destruct j as [|j]; [solve [eauto]|]); lia
     |solve [eauto 10]]).
Qed.
End Retries.

(** ** More on the payload parser *)

Section ParserFacts.
Import Prayer.
Local Arguments String.append _ _ : simpl nomatch.

Lemma rowEvent_inv timings g loc clock name e :
  rowEvent timings g loc clock name = Some e ->
  Name e = name ∧ is_Some (timings !! name) ∧ Time.loc (When e) = loc.
Proof.
  unfold rowEvent. intros H.
  destruct (timings !! name) as [tstr|] eqn:Hrow; [|done].
  destruct (timeToken tstr) as [ts|]; [|done].
  destruct (parseDateTime g ts loc clock) as [dt|] eqn:Hp; [|done].
  injection H as <-. simpl. split; [done|]. split; [by eexists|].
  unfold parseDateTime in Hp.
  destruct (length _ <? 2)%nat; [done|].
  destruct (3 <=? _)%nat; cbv beta iota zeta in Hp;
    match type of Hp with context [if ?c then _ else _] => destruct c end;
    injection Hp as <-; by rewrite Date_wall.
Qed.

Lemma names_of_omap {B : Type} (f : string -> option B) (nm : B -> string) (l : list string) :
  (∀ x e, f x = Some e -> nm e = x) ->
  map nm (omap f l) = filter (fun x => is_Some (f x)) l.
Proof.
  intros Hnm. induction l as [|x l IH]; [done|]. csimpl.
  rewrite filter_cons. destruct (f x) as [e|] eqn:Hx.
  - rewrite decide_True by by eexists. simpl. by rewrite IH, (Hnm _ _ Hx).
  - rewrite decide_False by by intros [? ?]. done.
Qed.

Lemma StandardOrder_NoDup : NoDup StandardOrder.
Proof. apply (bool_decide_unpack _). by vm_compute. Qed.

(** X5.  Whatever the payload, [ParseTimes] returns at most six events;
    no two of them have the same name; each one bears one of the six
    names, for which the payload has a row, and carries the location the
    parser was given. *)
Theorem ParseTimes_names (resp : Api.Response) (loc : Time.Location) (clock : Z) :
  (length (ParseTimes resp loc clock) <= 6)%nat
  ∧ NoDup (map Name (ParseTimes resp loc clock))
  ∧ ∀ e, e ∈ ParseTimes resp loc clock ->
         Name e ∈ StandardOrder
         ∧ is_Some (Api.Timings resp !! Name e)
         ∧ Time.loc (When e) = loc.
Proof.
  set (f := rowEvent (Api.Timings resp) (batchGregDate resp loc clock) loc clock).
  assert (Hperm : ParseTimes resp loc clock ≡ₚ omap f StandardOrder).
  { rewrite ParseTimes_unfold. apply Slice_lessWhen_perm. }
  assert (Hnames : map Name (omap f StandardOrder)
                   = filter (fun x => is_Some (f x)) StandardOrder).
  { apply names_of_omap. intros x e Hx. by apply rowEvent_inv in Hx as [? _]. }
  split; [|split].
  - rewrite Hperm, <- (length_map Name), Hnames.
    etrans; [apply length_filter|]. done.
  - rewrite Hperm, Hnames. apply NoDup_filter, StandardOrder_NoDup.
  - intros e He. apply elem_of_ParseTimes in He as (name & Hname & Hrow).
    apply rowEvent_inv in Hrow as (<- & ? & ?). done.
Qed.

(** X6.  Rows under names other than the six are ignored: adding or
    replacing such a row in the payload does not change what
    [ParseTimes] returns. *)
Theorem ParseTimes_ignores_other_rows
    (resp : Api.Response) (loc : Time.Location) (clock : Z) (name value : string) :
  name ∉ StandardOrder ->
  ParseTimes (withTimings resp (<[name := value]> (Api.Timings resp))) loc clock
  = ParseTimes resp loc clock.
Proof.
  intros Hname. rewrite !ParseTimes_unfold. f_equal.
  change (batchGregDate (withTimings resp _) loc clock) with (batchGregDate resp loc clock).
  apply omap_ext_in. intros n Hn. simpl. unfold rowEvent.
  rewrite lookup_insert_ne; [done|]. intros ->. done.
Qed.

Lemma ParseTimes_ignores_other_rows_witness :
  ParseTimes (withTimings londonPayload
                (<["Midnight" := "00:58"]> (Api.Timings londonPayload))) London2024 0
  = ParseTimes londonPayload London2024 0.
Proof.
  apply (ParseTimes_ignores_other_rows londonPayload London2024 0 "Midnight" "00:58").
  apply (bool_decide_unpack _). vm_compute. reflexivity.
Defined.
End ParserFacts.

(** ** Clock times as they are shown *)

Section Display.
Import Prayer.
Local Arguments String.append _ _ : simpl nomatch.

Lemma appendInt_two x :
  0 <= x < 100 ->
  Time.appendInt x 2
  = String (Fmt.digitChar (x / 10)) (String (Fmt.digitChar (x mod 10)) "").
Proof.
  intros Hx. rewrite <- (Z2Nat.id x) by lia.
  assert (Z.to_nat x < 100)%nat as Hk by lia.
  generalize dependent (Z.to_nat x). clear. intros k Hk.
  do 100 (destruct k as [|k]; [by vm_compute|]). lia.
Qed.

Lemma validHHMM_format h m :
  0 <= h <= 23 -> 0 <= m <= 59 ->
  validHHMM (Time.appendInt h 2 +:+ ":" +:+ Time.appendInt m 2) = Some (h, m).
Proof.
  intros Hh Hm. rewrite !appendInt_two by lia. cbn [String.append]. unfold validHHMM.
  assert (0 <= h / 10 <= 9) by (split; [apply Z.div_pos|apply Z.div_le_upper_bound]; lia).
  assert (0 <= m / 10 <= 9) by (split; [apply Z.div_pos|apply Z.div_le_upper_bound]; lia).
  pose proof (Z.mod_pos_bound h 10 ltac:(lia)).
  pose proof (Z.mod_pos_bound m 10 ltac:(lia)).
  rewrite !digitVal_digitChar by lia.
  rewrite <- !Z.div_mod by lia.
  change (Ascii.eqb ":" ":") with true.
  destruct (Z.leb_spec h 23); [|lia]. destruct (Z.leb_spec m 59); [|lia]. done.
Qed.


Lemma HourOf_range t : 0 <= Time.HourOf t <= 23.
Proof.
  unfold Time.HourOf, Time.secondsPerDay.
  pose proof (Z.mod_pos_bound (Time.localSeconds t) 86400 ltac:(lia)).
  split; [apply Z.div_pos; lia|].
  apply Z.lt_succ_r, Z.div_lt_upper_bound; lia.
Qed.

Lemma MinuteOf_range t : 0 <= Time.MinuteOf t <= 59.
Proof.
  unfold Time.MinuteOf.
  pose proof (Z.mod_pos_bound (Time.localSeconds t) 3600 ltac:(lia)).
  split; [apply Z.div_pos; lia|].
  apply Z.lt_succ_r, Z.div_lt_upper_bound; lia.
Qed.

(** X7.  In 24-hour form [FormatTime] always writes a well-formed HH:MM
    token, two digits each, whose fields are the hour and the minute of
    the instant on the wall clock of its location. *)
Theorem FormatTime_24h_valid (t : Time.Time) :
  validHHMM (FormatTime t false) = Some (Time.HourOf t, Time.MinuteOf t).
Proof.
  unfold FormatTime, Time.Format_15_04.
  apply validHHMM_format; [apply HourOf_range|apply MinuteOf_range].
Qed.



End Display.

(** ** Tokens and their annotations *)

Section Tokens.
Import Prayer.
Local Arguments String.append _ _ : simpl nomatch.

Lemma clockChar_facts c :
  clockChar c = true ->
  (∀ r, Strings.spaceWidth (String c r) = 0%nat) ∧ Ascii.eqb c "(" = false.
Proof.
  destruct c as [[] [] [] [] [] [] [] []]; intros H; try discriminate H;
    (split; [intros [|c1 [|c2 r]]; reflexivity|reflexivity]).
Qed.

Lemma append_nil_r (s : string) : s +:+ "" = s.
Proof. induction s as [|c s IH]; simpl; congruence. Qed.

Lemma fieldsFrom_clock ts rest f :
  allClock ts = true ->
  Strings.fieldsFrom (ts +:+ rest) 0 (Some f) = Strings.fieldsFrom rest 0 (Some (f +:+ ts)).
Proof.
  revert f. induction ts as [|c ts IH]; intros f Hts.
  - by rewrite append_nil_r.
  - simpl in Hts. apply andb_prop in Hts as [Hc Hts].
    destruct (clockChar_facts c Hc) as [Hw _].
    change (String c ts +:+ rest) with (String c (ts +:+ rest)).
    cbn [Strings.fieldsFrom]. rewrite Hw, (IH _ Hts), append_assoc. done.
Qed.

Lemma fieldsFrom_clock_start c ts rest :
  allClock (String c ts) = true ->
  Strings.fieldsFrom (String c ts +:+ rest) 0 None
  = Strings.fieldsFrom rest 0 (Some (String c ts)).
Proof.
  intros Hts. simpl in Hts. apply andb_prop in Hts as [Hc Hts].
  destruct (clockChar_facts c Hc) as [Hw _].
  change (String c ts +:+ rest) with (String c (ts +:+ rest)).
  cbn [Strings.fieldsFrom]. rewrite Hw. by rewrite fieldsFrom_clock.
Qed.

(** A field under way is only ever extended. *)
Lemma fieldsFrom_head s f :
  ∃ w tl, Strings.fieldsFrom s 0 (Some f) = (f +:+ w) :: tl.
Proof.
  revert f. induction s as [|c s IH]; intros f.
  - exists "", []. by rewrite append_nil_r.
  - cbn [Strings.fieldsFrom]. destruct (Strings.spaceWidth (String c s)) as [|k].
    + destruct (IH (f +:+ String c "")) as (w & tl & ->).
      exists (String c w), tl. by rewrite append_assoc.
    + exists "", (Strings.fieldsFrom s k None). by rewrite append_nil_r.
Qed.

Lemma Index_clock_none ts : allClock ts = true -> Strings.Index ts "(" = -1.
Proof.
  induction ts as [|c ts IH]; intros Hts; [done|].
  simpl in Hts. apply andb_prop in Hts as [Hc Hts].
  destruct (clockChar_facts c Hc) as [_ Hp].
  cbn [Strings.Index]. rewrite Hp, (IH Hts). reflexivity.
Qed.

Lemma Index_clock_paren ts rest :
  allClock ts = true ->
  Strings.Index (ts +:+ String "(" rest) "(" = Z.of_nat (String.length ts).
Proof.
  induction ts as [|c ts IH]; intros Hts; [done|].
  simpl in Hts. apply andb_prop in Hts as [Hc Hts].
  destruct (clockChar_facts c Hc) as [_ Hp].
  change (String c ts +:+ String "(" rest) with (String c (ts +:+ String "(" rest)).
  cbn [Strings.Index String.length]. rewrite Hp, (IH Hts).
  destruct (Z.ltb_spec (Z.of_nat (String.length ts)) 0); lia.
Qed.

Lemma prefix_app ts rest :
  Strings.prefix (ts +:+ rest) (Z.of_nat (String.length ts)) = ts.
Proof.
  unfold Strings.prefix. rewrite Nat2Z.id.
  induction ts as [|c ts IH]; simpl; [by destruct rest|]. by rewrite IH.
Qed.

Lemma spaceMask_clock ts :
  allClock ts = true ->
  Strings.spaceMask ts 0 = map (fun _ => false) (list_ascii_of_string ts).
Proof.
  induction ts as [|c ts IH]; intros Hts; [done|].
  simpl in Hts. apply andb_prop in Hts as [Hc Hts].
  destruct (clockChar_facts c Hc) as [Hw _].
  cbn [Strings.spaceMask list_ascii_of_string map]. by rewrite Hw, (IH Hts).
Qed.

Lemma dropMasked_false cs :
  Strings.dropMasked cs (map (fun _ => false) cs) = (cs, map (fun _ => false) cs).
Proof. by destruct cs. Qed.

Lemma TrimSpace_clock ts : allClock ts = true -> Strings.TrimSpace ts = ts.
Proof.
  intros Hts. unfold Strings.TrimSpace.
  rewrite (spaceMask_clock _ Hts), dropMasked_false, <- map_rev, dropMasked_false.
  by rewrite rev_involutive, string_of_list_ascii_of_string.
Qed.

(** X9.  A bare clock token (digits and colons) is read back whole, and
    an annotation after it is dropped, whether it follows a blank or is
    attached in parentheses: ["12:30"], ["12:30 (+03)"] and
    ["12:30(+03)"] all give the token ["12:30"]. *)
Theorem timeToken_strips_annotation (ts note : string) :
  allClock ts = true -> ts ≠ "" ->
  timeToken ts = Some ts
  ∧ timeToken (ts +:+ " " +:+ note) = Some ts
  ∧ timeToken (ts +:+ "(" +:+ note) = Some ts.
Proof.
  intros Hts Hne. destruct ts as [|c ts]; [done|].
  pose proof (Index_clock_none _ Hts) as Hidx.
  unfold timeToken, Strings.Fields. split; [|split].
  - rewrite <- (append_nil_r (String c ts)) at 1.
    rewrite (fieldsFrom_clock_start _ _ _ Hts). cbn [Strings.fieldsFrom].
    by rewrite Hidx.
  - rewrite (fieldsFrom_clock_start _ _ _ Hts).
    change (" " +:+ note) with (String " " note). cbn [Strings.fieldsFrom].
    change (Strings.spaceWidth (String " " note)) with 1%nat. cbv iota.
    by rewrite Hidx.
  - rewrite (fieldsFrom_clock_start _ _ _ Hts).
    change ("(" +:+ note) with (String "(" note). cbn [Strings.fieldsFrom].
    assert (Strings.spaceWidth (String "(" note) = 0%nat) as ->
      by (destruct note as [|c1 [|c2 r]]; reflexivity).
    destruct (fieldsFrom_head note (String c ts +:+ String "(" "")) as (w & tl & ->).
    rewrite append_assoc. change (String "(" "" +:+ w) with (String "(" w).
    rewrite (Index_clock_paren _ _ Hts).
    destruct (Z.leb_spec 0 (Z.of_nat (String.length (String c ts)))); [|lia].
    by rewrite prefix_app, TrimSpace_clock.
Qed.

Lemma timeToken_strips_annotation_witness :
  timeToken "12:30" = Some "12:30"
  ∧ timeToken ("12:30" +:+ " " +:+ "(+03)") = Some "12:30"
  ∧ timeToken ("12:30" +:+ "(" +:+ "(+03)") = Some "12:30".
Proof.
  apply (timeToken_strips_annotation "12:30" "(+03)"); [reflexivity|discriminate].
Defined.

(** X10.  [HijriString] is empty exactly when the date, the month and
    the weekday it would join (in the language asked for) are all empty;
    so a caller's test for the empty string does not miss a component. *)
Theorem HijriString_empty_iff (resp : Api.Response) (arabic : bool) :
  HijriString resp arabic = "" <-> Forall (fun s => s = "") (hijriParts resp arabic).
Proof.
  unfold HijriString, hijriParts.
  set (month := if arabic then _ else _). set (weekday := if arabic then _ else _).
  destruct (Api.Hijri_Date resp) as [|c1 s1], month as [|c2 s2], weekday as [|c3 s3];
    cbn; (split; [intros H; try discriminate H; repeat constructor
                 |intros H; try reflexivity;
                  repeat (apply Forall_cons in H as [? H]); discriminate]).
Qed.
End Tokens.

(** ** How the queries fit together *)

Section Together.
Import Prayer.
Local Arguments String.append _ _ : simpl nomatch.

Lemma next_kept (after : Time.Time) (b : Event) (es : list Event) :
  Forall (fun e => instant b <= instant e) es ->
  fold_left
    (fun best e =>
       if Time.After (When e) after then
         match best with
         | None => Some e
         | Some b => if Time.Before (When e) (When b) then Some e else best
         end
       else best)
    es (Some b)
  = Some b.
Proof.
  induction 1 as [|e es He Hes IH]; [done|]. cbn [fold_left].
  destruct (Time.After (When e) after); [|exact IH].
  destruct (Time.Before (When e) (When b)) eqn:Hb; [|exact IH].
  unfold Time.Before in Hb. apply Z.ltb_lt in Hb. unfold instant in He. lia.
Qed.

(** X11.  On a list in ascending order of instants, as [ParseTimes]
    returns it, [NextEventAfter] gives the first event of the list that
    lies strictly after the reference instant. *)
Theorem NextEventAfter_sorted (events : list Event) (after : Time.Time) :
  StronglySorted byInstant events ->
  NextEventAfter events after
  = head (filter (fun e => Time.unixNano after < instant e) events).
Proof.
  unfold NextEventAfter.
  induction 1 as [|e es Hs IH He]; [done|].
  cbn [fold_left]. rewrite filter_cons.
  destruct (Time.After (When e) after) eqn:Ha; unfold Time.After in Ha.
  - apply Z.ltb_lt in Ha. rewrite decide_True by done. by apply next_kept.
  - apply Z.ltb_ge in Ha. rewrite decide_False by (unfold instant; lia). done.
Qed.

Lemma NextEventAfter_sorted_witness :
  NextEventAfter (ParseTimes londonPayload London2024 tenInLondon)
                 (Time.NowIn tenInLondon London2024)
  = head (filter (fun e => Time.unixNano (Time.NowIn tenInLondon London2024) < instant e)
                 (ParseTimes londonPayload London2024 tenInLondon)).
Proof.
  apply (NextEventAfter_sorted (ParseTimes londonPayload London2024 tenInLondon)).
  rewrite ParseTimes_unfold. apply Slice_lessWhen_sorted.
Defined.

Lemma NextEventAfter_inv events after :
  nextInv after events (NextEventAfter events after).
Proof.
  apply (NextEventAfter_loop after events [] None).
  intros e He. by apply not_elem_of_nil in He.
Qed.

(** X12.  The daemon and the status line agree on what comes next: the
    instant of the first event [UpcomingEvents] returns is the instant of
    the event [NextEventAfter] returns, whenever that one lies within the
    horizon, and [UpcomingEvents] returns nothing otherwise. *)
Theorem first_upcoming_is_next
    (events : list Event) (from : Time.Time) (within t : Z) :
  (∃ e, head (UpcomingEvents events from within) = Some e ∧ instant e = t)
  <-> (∃ nx, NextEventAfter events from = Some nx ∧ instant nx = t
             ∧ t < Time.unixNano from + within).
Proof.
  destruct (UpcomingEvents_window events from within) as [Hperm Hsort].
  pose proof (NextEventAfter_inv events from) as Hnext.
  split.
  - intros (e & Hhead & <-).
    assert (He : e ∈ UpcomingEvents events from within).
    { destruct (UpcomingEvents events from within); [done|].
      injection Hhead as ->. set_solver. }
    rewrite Hperm in He. apply list_elem_of_filter in He as [[Hlo Hhi] He].
    destruct (NextEventAfter events from) as [nx|]; simpl in Hnext.
    + destruct Hnext as (Hnx & Hafter & Hmin).
      exists nx. split; [done|]. split; [|done].
      assert (Hin : nx ∈ UpcomingEvents events from within).
      { rewrite Hperm. apply list_elem_of_filter. split; [|done].
        specialize (Hmin e He Hlo). lia. }
      specialize (Hmin e He Hlo).
      destruct (UpcomingEvents events from within) as [|e' l]; [done|].
      injection Hhead as ->. apply StronglySorted_inv in Hsort as [_ Hall].
      apply elem_of_cons in Hin as [->|Hin]; [done|].
      rewrite Forall_forall in Hall. specialize (Hall nx Hin).
      unfold byInstant in Hall. lia.
    + specialize (Hnext e He). lia.
  - intros (nx & Hnx & <- & Hhi). rewrite Hnx in Hnext. simpl in Hnext.
    destruct Hnext as (Hin & Hafter & Hmin).
    assert (Hup : nx ∈ UpcomingEvents events from within).
    { rewrite Hperm. apply list_elem_of_filter. done. }
    destruct (UpcomingEvents events from within) as [|e l] eqn:Hlist.
    { by apply not_elem_of_nil in Hup. }
    exists e. split; [done|].
    assert (He : e ∈ filter (fun e => Time.unixNano from < instant e
                                      < Time.unixNano from + within) events).
    { rewrite <- Hperm. set_solver. }
    apply list_elem_of_filter in He as [[Hlo _] He].
    specialize (Hmin e He Hlo).
    apply StronglySorted_inv in Hsort as [_ Hall].
    apply elem_of_cons in Hup as [->|Hup]; [done|].
    rewrite Forall_forall in Hall. specialize (Hall nx Hup).
    unfold byInstant in Hall. lia.
Qed.




End Together.

(** ** Invariants of the serve daemon *)

Section DaemonInvariants.
Import Prayer.

Lemma scheduleEvents_adds env arabic fetched clock st :
  Serve.armed (Serve.scheduleEvents env arabic fetched clock st)
  = Serve.armed st ++ refreshTimers env arabic fetched clock
  ∧ Serve.notified (Serve.scheduleEvents env arabic fetched clock st) = Serve.notified st.
Proof.
  unfold Serve.scheduleEvents, refreshTimers. destruct fetched as [resp|].
  - destruct (length _ =? 0)%nat eqn:Hlen.
    + apply Nat.eqb_eq, length_zero_iff_nil in Hlen. rewrite Hlen.
      by rewrite app_nil_r.
    + apply arm_loop, UpcomingEvents_after.
  - by rewrite app_nil_r.
Qed.


Lemma step_conserves env arabic st tr :
  Serve.notified (Serve.step env arabic st tr) ++ Serve.armed (Serve.step env arabic st tr)
    ≡ₚ (Serve.notified st ++ Serve.armed st) ++ armedByTicks env arabic [tr].
Proof.
  destruct tr as [fetched clock|clock]; unfold armedByTicks; simpl; rewrite app_nil_r.
  - destruct (scheduleEvents_adds env arabic fetched clock (Serve.elapse clock st))
      as [-> ->].
    by rewrite app_assoc, elapse_conserves.
  - apply elapse_conserves.
Qed.

Lemma run_from_conserves env arabic trs st :
  Serve.notified (fold_left (Serve.step env arabic) trs st)
    ++ Serve.armed (fold_left (Serve.step env arabic) trs st)
    ≡ₚ (Serve.notified st ++ Serve.armed st) ++ armedByTicks env arabic trs.
Proof.
  revert st. induction trs as [|tr trs IH]; intros st.
  - unfold armedByTicks. simpl. by rewrite app_nil_r.
  - cbn [fold_left]. rewrite IH, step_conserves.
    unfold armedByTicks. simpl. by rewrite !app_nil_r, <- !app_assoc.
Qed.

(** X14.  The daemon neither loses nor invents a timer: after any
    sequence of ticks and passing time, the notifications made and the
    timers still waiting are together exactly the timers the ticks armed,
    each as often as it was armed.  A failed fetch, an empty payload or
    a later refresh removes none of them. *)
Theorem run_conserves (env : Time.TZEnv) (arabic : bool) (trs : list Serve.Trigger) :
  Serve.notified (Serve.run env arabic trs) ++ Serve.armed (Serve.run env arabic trs)
    ≡ₚ armedByTicks env arabic trs.
Proof. unfold Serve.run. by rewrite run_from_conserves. Qed.





End DaemonInvariants.

(** ** The date a batch is placed on *)

Section DateFallback.
Import Prayer.
Local Arguments String.append _ _ : simpl nomatch.






End DateFallback.
